(** * DbEntity: metadata-driven SQL persistence

    A shallow embedding of [dbentity.js]: the value coercion helper
    [_transformToSafeValue], the trailing-clause builder
    [_appendOrderByAndLimit], the statement builders of every public
    operation, and the operations themselves as state-passing programs over
    the handle's metadata cache, the connection pool and the logger. *)

From Stdlib Require Import String Ascii List ZArith Bool Lia DecimalString.
Import ListNotations.
Local Open Scope list_scope.
Local Open Scope string_scope.
Local Set Warnings "-register-all".

(** ** JavaScript values *)

(** Numbers are the integers the code handles (ids, limits, offsets, row
    counts).  [VError] is a native error object ([new Error(msg)], a
    [ReferenceError] raised by the runtime); [VObj] is a plain object, its
    properties in iteration order. *)
Inductive value : Type :=
| VUndefined
| VNull
| VBool (b : bool)
| VNum (z : Z)
| VStr (s : string)
| VArr (items : list value)
| VObj (props : list (string * value))
| VError (name message : string).

(** A plain object used as a row, a template or a save object: own
    enumerable properties in the order [_.each] visits them. *)
Definition object := list (string * value).

(** [_.isNil] *)
Definition isNil (v : value) : bool :=
  match v with
  | VUndefined | VNull => true
  | _ => false
  end.

(** The truthiness test of [if(err)]. *)
Definition truthy (v : value) : bool :=
  match v with
  | VUndefined | VNull => false
  | VBool b => b
  | VNum z => negb (z =? 0)%Z
  | VStr s => negb (s =? "")
  | VArr _ | VObj _ | VError _ _ => true
  end.

(** [o[k]]: the property, [undefined] when absent. *)
Fixpoint prop (o : object) (k : string) : value :=
  match o with
  | [] => VUndefined
  | (k', v) :: rest => if k' =? k then v else prop rest k
  end.

(** [o[k] = v]: overwrite in place, or add as the last property. *)
Fixpoint set_prop (o : object) (k : string) (v : value) : object :=
  match o with
  | [] => [(k, v)]
  | (k', v') :: rest =>
      if k' =? k then (k, v) :: rest else (k', v') :: set_prop rest k v
  end.

(** [err.code] on a rejection reason.  Only plain objects (the driver's
    error records) carry a [code]; on a string, a number or a native error
    raised by this module the member is [undefined]. *)
Definition member_code (err : value) : value :=
  match err with
  | VObj o => prop o "code"
  | _ => VUndefined
  end.

(** Decimal rendering of a number in a string concatenation. *)
Definition number_text (z : Z) : string :=
  NilZero.string_of_int (Z.to_int z).

(** [s.substr(1)] *)
Definition substr1 (s : string) : string :=
  match s with
  | EmptyString => EmptyString
  | String _ rest => rest
  end.

(** [_.startsWith] *)
Definition startsWith (s p : string) : bool := String.prefix p s.

(** Outcome of a synchronous piece of code: a value, or a thrown one. *)
Inductive completion (A : Type) : Type :=
| Normal (a : A)
| Throw (e : value).
Arguments Normal {A} a.
Arguments Throw {A} e.

(** ** Column metadata and handle configuration *)

(** One entry of [self.metadata], as [fetchMetadata] builds it. *)
Record column_meta : Type := {
  column : string;
  sql_type : string;
  pk : bool;
  nullable : bool;
  default : value;
  autoincrement : bool;
  is_updated_timestamp : bool;
  is_created_timestamp : bool;
  is_updated_version : bool
}.

(** One row of the reply to [SHOW COLUMNS]. *)
Record show_column : Type := {
  Field : string;
  Type_ : string;
  Key : string;
  Null : string;
  Default : value;
  Extra : string
}.

(** [self.options]; an absent setting is [None]. *)
Record options : Type := {
  created_timestamp_column : option string;
  updated_timestamp_column : option string;
  version_number_column : option string;
  log_category : option string
}.

(** The defaults the constructor installs when no [opts] is given. *)
Definition default_options : options := {|
  created_timestamp_column := Some "created";
  updated_timestamp_column := Some "updated";
  version_number_column := Some "version";
  log_category := Some "db"
|}.

(** The immutable part of a handle: [this.table], [this.entity],
    [this.options]. *)
Record DbEntity : Type := {
  table : string;
  entity : string;
  self_options : options
}.

(** The constructor, as far as these three fields go. *)
Definition new_DbEntity (t e : string) (opts : option options) : DbEntity := {|
  table := t;
  entity := e;
  self_options := match opts with Some o => o | None => default_options end
|}.

(** [_.endsWith(s, target)] *)
Definition endsWith (s target : string) : bool :=
  let n := String.length s in
  let m := String.length target in
  (m <=? n)%nat && (String.substring (n - m) m s =? target).

(** [s.lastIndexOf(c)] for a one-character [c]: the index of its last
    occurrence, [-1] when there is none.  [i] is the index of the head of
    [s], [found] the last occurrence seen so far. *)
Fixpoint lastIndexOf_from (i : nat) (s : string) (c : ascii) (found : Z) : Z :=
  match s with
  | EmptyString => found
  | String a rest =>
      lastIndexOf_from (S i) rest c
        (if Ascii.eqb a c then Z.of_nat i else found)
  end.

Definition lastIndexOf (s : string) (c : ascii) : Z :=
  lastIndexOf_from 0 s c (-1).

(** [s.substr(0, len)]; a negative [len] gives the empty string. *)
Definition substr0 (s : string) (len : Z) : string :=
  String.substring 0 (Z.to_nat len) s.

(** [this.plural] as the constructor sets it; [plural] is [opts.plural]
    when [opts] is given and carries one. *)
Definition derive_plural (entity : string) (plural : option string) : string :=
  match plural with
  | None =>
      if endsWith entity "y" then
        substr0 entity (lastIndexOf entity "y") ++ "ies"
      else if endsWith entity "s" then
        substr0 entity (lastIndexOf entity "s") ++ "es"
      else entity ++ "s"
  | Some given => given
  end.

(** [col.column === self.options.<setting>] *)
Definition names_column (setting : option string) (c : column_meta) : bool :=
  match setting with
  | Some n => column c =? n
  | None => false
  end.

(** Query options; [None] is an absent property. *)
Record query_opts : Type := {
  orderBy : option (list string);
  limit : option Z;
  offset : option Z;
  booleanMode : option string
}.

(** ** Value coercion *)

Section Coercion.

(** [moment(input).format(fmt)] of the moment library: the rendered text,
    or whatever the call throws. *)
Variable moment_format : value -> string -> completion string.

Definition is_temporal (datatype : string) : bool :=
  (datatype =? "datetime") || (datatype =? "timestamp").

Definition is_numeric (datatype : string) : bool :=
  startsWith datatype "int" || startsWith datatype "num"
  || startsWith datatype "dec".

Definition _transformToSafeValue (input : value) (col : column_meta)
  : completion value :=
  let datatype := sql_type col in
  match input with
  | VStr "" =>
      if is_temporal datatype || is_numeric datatype then
        if nullable col then Normal VNull
        else Throw (VError "Error"
                      (column col ++ " is not permitted to be empty."))
      else Normal input
  | VUndefined | VNull => Normal input
  | _ =>
      if is_temporal datatype then
        match moment_format input "YYYY-MM-DD HH:mm:ss" with
        | Normal s => Normal (VStr s)
        | Throw e => Throw e
        end
      else Normal input
  end.

End Coercion.

(** ** ORDER BY, LIMIT and OFFSET *)

Definition pks (metadata : list column_meta) : list column_meta :=
  filter (fun c => pk c) metadata.

(** The loop over [opts.orderBy]; [i] is the loop index. *)
Fixpoint orderBy_loop (i : nat) (tokens : list string) (orderBy : string)
  : string :=
  match tokens with
  | [] => orderBy
  | colname :: rest =>
      let orderBy := if (0 <? i)%nat then orderBy ++ ", " else orderBy in
      let '(colname, ord) :=
        if startsWith colname "-" then (substr1 colname, "DESC")
        else if startsWith colname "+" then (substr1 colname, "ASC")
        else (colname, "ASC") in
      orderBy_loop (S i) rest (orderBy ++ colname ++ " " ++ ord)
  end.

(** The loop over the primary-key columns in the default branch: the
    column goes to [sql], the separator to [orderBy]. *)
Fixpoint pk_order_loop (i : nat) (keys : list column_meta)
  (sql orderBy : string) : string * string :=
  match keys with
  | [] => (sql, orderBy)
  | c :: rest =>
      let orderBy := if (0 <? i)%nat then orderBy ++ ", " else orderBy in
      pk_order_loop (S i) rest (sql ++ column c ++ " ASC") orderBy
  end.

Definition _appendOrderByAndLimit (metadata : list column_meta)
  (sql : string) (opts : option query_opts) : string :=
  let orderBy_ := "" in
  let limit_ := "" in
  let '(orderBy_, limit_) :=
    match opts with
    | Some o =>
        let orderBy_ :=
          match orderBy o with
          | Some ((_ :: _) as tokens) =>
              orderBy_loop 0 tokens (orderBy_ ++ " ORDER BY ")
          | _ => orderBy_
          end in
        let limit_ :=
          match limit o with
          | Some n => limit_ ++ " LIMIT " ++ number_text n
          | None => limit_ ++ " LIMIT 1000"
          end in
        let limit_ :=
          match offset o with
          | Some n => limit_ ++ " OFFSET " ++ number_text n
          | None => limit_
          end in
        (orderBy_, limit_)
    | None => (orderBy_, limit_)
    end in
  let '(sql, orderBy_) :=
    if orderBy_ =? "" then
      pk_order_loop 0 (pks metadata) (sql ++ " ORDER BY ") orderBy_
    else (sql, orderBy_) in
  sql ++ orderBy_ ++ limit_.

(** ** Statement builders *)

(** The [_.each] over a template in [find]: one [k=?] per entry, joined by
    [bool], the values bound as they are. *)
Fixpoint where_loop (bool : string) (entries : object) (where_ : string)
  (parms : list value) : string * list value :=
  match entries with
  | [] => (where_, parms)
  | (k, v) :: rest =>
      let where_ := if negb (where_ =? "") then where_ ++ bool else where_ in
      where_loop bool rest (where_ ++ k ++ "=?") (parms ++ [v])
  end.

(** The [_.each] over the primary-key columns in [update] and [deleteOne]:
    the value is read from the object by column name. *)
Fixpoint pk_where_loop (o : object) (keys : list column_meta)
  (where_ : string) (parms : list value) : string * list value :=
  match keys with
  | [] => (where_, parms)
  | col :: rest =>
      let where_ :=
        if negb (where_ =? "") then where_ ++ " AND " else where_ in
      pk_where_loop o rest (where_ ++ column col ++ "=?")
        (parms ++ [prop o (column col)])
  end.

Section Builders.

Variable moment_format : value -> string -> completion string.
Variable self : DbEntity.

Definition all_sql (metadata : list column_meta) (opts : option query_opts)
  : string :=
  let sql := "SELECT * FROM " ++ table self ++ " " in
  _appendOrderByAndLimit metadata sql opts.

Definition find_sql (metadata : list column_meta) (query : object)
  (opts : option query_opts) : string * list value :=
  let sql := "SELECT * FROM " ++ table self ++ " " in
  let parms := [] in
  let bool :=
    match opts with
    | Some o =>
        match booleanMode o with
        | Some m => " " ++ m ++ " "
        | None => " AND "
        end
    | None => " AND "
    end in
  let sql := sql ++ " WHERE " in
  let '(where_, parms) := where_loop bool query "" parms in
  let sql := sql ++ where_ in
  (_appendOrderByAndLimit metadata sql opts, parms).

Definition selectWhere_sql (metadata : list column_meta) (where_ : string)
  (opts : option query_opts) : string :=
  let sql := "SELECT * FROM " ++ table self ++ " " in
  let sql := sql ++ " WHERE " in
  let sql := sql ++ where_ in
  _appendOrderByAndLimit metadata sql opts.

(** The loop of [create] over the columns that are not auto-increment
    keys. *)
Fixpoint create_loop (save : object) (columns : list column_meta)
  (cols vals : string) (parms : list value)
  : completion (string * string * list value) :=
  match columns with
  | [] => Normal (cols, vals, parms)
  | col :: rest =>
      let cols := if negb (cols =? "") then cols ++ ", " else cols in
      let cols := cols ++ column col in
      let vals := if negb (vals =? "") then vals ++ ", " else vals in
      if names_column (created_timestamp_column (self_options self)) col then
        create_loop save rest cols (vals ++ "CURRENT_TIMESTAMP") parms
      else if names_column (updated_timestamp_column (self_options self)) col
      then create_loop save rest cols (vals ++ "CURRENT_TIMESTAMP") parms
      else if names_column (version_number_column (self_options self)) col
      then create_loop save rest cols (vals ++ "0") parms
      else
        match _transformToSafeValue moment_format
                (prop save (column col)) col with
        | Normal p => create_loop save rest cols (vals ++ "?") (parms ++ [p])
        | Throw e => Throw e
        end
  end.

Definition create_sql (metadata : list column_meta) (save : object)
  : completion (string * list value) :=
  let not_ai_pks :=
    filter (fun col => (pk col && negb (autoincrement col)) || negb (pk col))
      metadata in
  match create_loop save not_ai_pks "" "" [] with
  | Normal (cols, vals, parms) =>
      Normal ("INSERT INTO " ++ table self ++ " (" ++ cols ++ ") VALUES ("
                ++ vals ++ ");", parms)
  | Throw e => Throw e
  end.

(** The [_.each] of [update] over the entries of [save]. *)
Fixpoint update_loop (not_pks : list column_meta) (entries : object)
  (sets : string) (parms : list value) : completion (string * list value) :=
  match entries with
  | [] => Normal (sets, parms)
  | (k, v) :: rest =>
      match List.find (fun c => column c =? k) not_pks with
      | Some col =>
          if names_column (created_timestamp_column (self_options self)) col
          then update_loop not_pks rest sets parms
          else
            let sets := if negb (sets =? "") then sets ++ ", " else sets in
            if names_column (version_number_column (self_options self)) col
            then
              let vn := match version_number_column (self_options self) with
                        | Some n => n
                        | None => "undefined"
                        end in
              update_loop not_pks rest (sets ++ vn ++ "=" ++ vn ++ "+1") parms
            else if names_column (updated_timestamp_column (self_options self))
                      col
            then update_loop not_pks rest
                   (sets ++ column col ++ "=CURRENT_TIMESTAMP") parms
            else
              match _transformToSafeValue moment_format v col with
              | Normal parmVal =>
                  let parmVal := if isNil parmVal then VNull else parmVal in
                  update_loop not_pks rest (sets ++ column col ++ "=?")
                    (parms ++ [parmVal])
              | Throw e => Throw e
              end
      | None => update_loop not_pks rest sets parms
      end
  end.

Definition update_sql (metadata : list column_meta) (save : object)
  : completion (string * list value) :=
  let sql := "UPDATE " ++ table self ++ " SET " in
  let not_pks := filter (fun col => negb (pk col)) metadata in
  match update_loop not_pks save "" [] with
  | Normal (sets, parms) =>
      let sql := sql ++ sets in
      let sql := sql ++ " WHERE " in
      let '(where_, parms) := pk_where_loop save (pks metadata) "" parms in
      Normal (sql ++ where_, parms)
  | Throw e => Throw e
  end.

Definition deleteOne_sql (metadata : list column_meta) (toDelete : object)
  : string * list value :=
  let sql := "DELETE FROM " ++ table self in
  let sql := sql ++ " WHERE " in
  let '(where_, parms) := pk_where_loop toDelete (pks metadata) "" [] in
  (sql ++ where_, parms).

Definition deleteWhere_sql (where_ : string) : string :=
  let sql := "DELETE FROM " ++ table self in
  let sql := sql ++ " WHERE " in
  sql ++ where_.

End Builders.

(** ** The pool, the logger and the handle's cache *)

(** What [pool.query] hands to its callback as [results]: the rows of a
    SELECT, or the packet of a write (its [affectedRows] and [insertId]). *)
Inductive db_results : Type :=
| Rows (rows : list object)
| OkPacket (affectedRows insertId : Z).

(** [results.affectedRows] *)
Definition affectedRows_of (results : db_results) : value :=
  match results with
  | OkPacket n _ => VNum n
  | Rows _ => VUndefined
  end.

(** [results.length>0] followed by [results[0]], else the empty object. *)
Definition first_or_empty (results : db_results) : object :=
  match results with
  | Rows (row :: _) => row
  | _ => []
  end.

(** The objects as [JSON.stringify] receives them. *)
Definition value_of_results (results : db_results) : value :=
  match results with
  | Rows rows => VArr (map VObj rows)
  | OkPacket n i => VObj [("affectedRows", VNum n); ("insertId", VNum i)]
  end.

Definition value_of_show_column (item : show_column) : value :=
  VObj [("Field", VStr (Field item)); ("Type", VStr (Type_ item));
        ("Null", VStr (Null item)); ("Key", VStr (Key item));
        ("Default", Default item); ("Extra", VStr (Extra item))].

Definition value_of_column_meta (c : column_meta) : value :=
  VObj [("column", VStr (column c)); ("sql_type", VStr (sql_type c));
        ("pk", VBool (pk c)); ("nullable", VBool (nullable c));
        ("default", default c); ("autoincrement", VBool (autoincrement c));
        ("is_updated_timestamp", VBool (is_updated_timestamp c));
        ("is_created_timestamp", VBool (is_created_timestamp c));
        ("is_updated_version", VBool (is_updated_version c))].

(** The severities of the logger wrapper. *)
Inductive level : Type := ERROR | WARN | INFO | DEBUG | TRACE.

(** The line feed of the error messages. *)
Definition nl : string := String (ascii_of_nat 10) EmptyString.

(** [!_.isNil(setting) && name === setting] *)
Definition is_setting (setting : option string) (name : string) : bool :=
  match setting with
  | Some n => name =? n
  | None => false
  end.

(** The record [fetchMetadata] pushes for one reported column. *)
Definition column_of (o : options) (item : show_column) : column_meta := {|
  column := Field item;
  sql_type := Type_ item;
  pk := Key item =? "PRI";
  nullable := Null item =? "YES";
  default := Default item;
  autoincrement := Extra item =? "auto_increment";
  is_updated_timestamp := is_setting (updated_timestamp_column o) (Field item);
  is_created_timestamp := is_setting (created_timestamp_column o) (Field item);
  is_updated_version := is_setting (version_number_column o) (Field item)
|}.

(** A statement handed to [pool.query] with its parameters. *)
Definition call : Type := string * list value.

(** The statement of [fetchMetadata]. *)
Definition show_columns_sql (t : string) : string :=
  "SHOW COLUMNS FROM " ++ t ++ ";".

(** The calls of a log that are schema introspections. *)
Definition is_introspection (c : call) : bool :=
  startsWith (fst c) "SHOW COLUMNS FROM ".

Definition introspections (cs : list call) : list call :=
  filter is_introspection cs.

(** ** Sample tables and pools *)

(** The catalog of a table with an auto-increment key [id], the columns
    [version] and [updated], and a text column [name]. *)
Definition catalog_row (f t k x : string) : show_column :=
  {| Field := f; Type_ := t; Key := k; Null := "NO"; Default := VNull;
     Extra := x |}.

Definition customer_catalog : list show_column :=
  [ catalog_row "id" "int(11)" "PRI" "auto_increment";
    catalog_row "version" "int(11)" "" "";
    catalog_row "updated" "timestamp" "" "";
    catalog_row "name" "varchar(255)" "" "" ].

Definition customer_metadata : list column_meta :=
  map (column_of default_options) customer_catalog.

(** A table whose key is the pair [(order_id, line)], and one without any
    key. *)
Definition order_line_metadata : list column_meta :=
  map (column_of default_options)
    [ catalog_row "order_id" "int(11)" "PRI" "";
      catalog_row "line" "int(11)" "PRI" "";
      catalog_row "qty" "int(11)" "" "" ].

Definition audit_metadata : list column_meta :=
  map (column_of default_options)
    [ catalog_row "at" "datetime" "" "";
      catalog_row "what" "text" "" "" ].

Definition t_customer : DbEntity := new_DbEntity "t_customer" "customer" None.

(** A pool that counts the statements it has served, reports the customer
    catalog and answers every other statement with no rows. *)
Definition counting_columns (n : nat) (sql : string) (parms : list value)
  : nat * (value * list show_column) :=
  (S n, (VNull, customer_catalog)).

Definition counting_query (n : nat) (sql : string) (parms : list value)
  : nat * (value * db_results) :=
  (S n, (VNull, Rows [])).

(** A pool on which every statement but the introspection fails with the
    driver's error record. *)
Definition driver_error : value :=
  VObj [("code", VStr "ER_PARSE_ERROR"); ("errno", VNum 1064);
        ("sqlState", VStr "42000")].

Definition failing_query (n : nat) (sql : string) (parms : list value)
  : nat * (value * db_results) :=
  (S n, (driver_error, Rows [])).

(** A pool whose reply to the introspection is the driver's error. *)
Definition failing_columns (n : nat) (sql : string) (parms : list value)
  : nat * (value * list show_column) :=
  (S n, (driver_error, [])).

(** A pool that reports one inserted row with generated id 42 for every
    statement. *)
Definition inserting_query (n : nat) (sql : string) (parms : list value)
  : nat * (value * db_results) :=
  (S n, (VNull, OkPacket 1 42)).

(** Stand-ins for the library calls, for running the model on examples. *)
Definition iso_text (input : value) (fmt : string) : completion string :=
  match input with
  | VStr "2024-01-02T10:00:00Z" => Normal "2024-01-02 10:00:00"
  | VStr s => Normal s
  | _ => Throw (VError "Error" "not a date")
  end.

Definition plain_text (v : value) : string :=
  match v with
  | VStr s => s
  | VNum z => number_text z
  | _ => "[object]"
  end.

Section Operations.

Variable moment_format : value -> string -> completion string.

(** [JSON.stringify(x)] and [JSON.stringify(x, null, 2)]. *)
Variable JSON_stringify : value -> string.
Variable JSON_stringify_2 : value -> string.

(** The connection pool: a state [D] and the reply [(err, results)] of
    [pool.query(sql, parms, callback)].  The reply to the SHOW COLUMNS
    statement is read as catalog rows, the reply to every other statement
    as [db_results]. *)
Variable D : Type.
Variable pool_query_columns :
  D -> string -> list value -> D * (value * list show_column).
Variable pool_query : D -> string -> list value -> D * (value * db_results).

Variable self : DbEntity.

(** What an operation can observe and change: the pool, the statements
    handed to it so far, the logger's output and [self.metadata]. *)
Record world : Type := {
  db : D;
  calls : list call;
  log : list (level * string);
  metadata : option (list column_meta)
}.

(** A promise chain: it runs on the world and is fulfilled ([Normal]) or
    rejected ([Throw]). *)
Definition M (A : Type) : Type := world -> completion A * world.

Definition ret {A} (a : A) : M A := fun w => (Normal a, w).

Definition reject {A} (e : value) : M A := fun w => (Throw e, w).

Definition bind {A B} (m : M A) (k : A -> M B) : M B :=
  fun w =>
    match m w with
    | (Normal a, w') => k a w'
    | (Throw e, w') => (Throw e, w')
    end.

(** [.catch(handler)] *)
Definition catch {A} (m : M A) (handler : value -> M A) : M A :=
  fun w =>
    match m w with
    | (Normal a, w') => (Normal a, w')
    | (Throw e, w') => handler e w'
    end.

(** A synchronous computation inside a [then] callback: a throw rejects
    the chain. *)
Definition lift {A} (c : completion A) : M A := fun w => (c, w).

Notation "x <- c1 ;; c2" := (bind c1 (fun x => c2))
  (at level 61, c1 at next level, right associativity).
Notation "' pat <- c1 ;; c2" := (bind c1 (fun x => match x with pat => c2 end))
  (at level 61, pat pattern, c1 at next level, right associativity).
Notation "c1 ;; c2" := (bind c1 (fun _ => c2))
  (at level 61, right associativity).

Definition LOGGER (l : level) (msg : string) : M unit :=
  fun w => (Normal tt,
            {| db := db w; calls := calls w; log := log w ++ [(l, msg)];
               metadata := metadata w |}).

(** [self.metadata] as the builders read it; [_.filter] and [_.find] treat
    an unset cache as an empty collection. *)
Definition read_metadata : M (list column_meta) :=
  fun w => (Normal (match metadata w with Some m => m | None => [] end), w).

Definition write_metadata (m : list column_meta) : M unit :=
  fun w => (Normal tt,
            {| db := db w; calls := calls w; log := log w;
               metadata := Some m |}).

Definition callDb (sql : string) (parms : list value) : M db_results :=
  fun w =>
    let '(d, (err, results)) := pool_query (db w) sql parms in
    let w' := {| db := d; calls := calls w ++ [(sql, parms)]; log := log w;
                 metadata := metadata w |} in
    if truthy err then (Throw err, w') else (Normal results, w').

(** [callDb] on the SHOW COLUMNS statement. *)
Definition callDb_columns (sql : string) (parms : list value)
  : M (list show_column) :=
  fun w =>
    let '(d, (err, results)) := pool_query_columns (db w) sql parms in
    let w' := {| db := d; calls := calls w ++ [(sql, parms)]; log := log w;
                 metadata := metadata w |} in
    if truthy err then (Throw err, w') else (Normal results, w').

Definition fetchMetadata : M (list column_meta) :=
  fun w =>
    match metadata w with
    | None =>
        let sql := show_columns_sql (table self) in
        catch
          (results <- callDb_columns sql [] ;;
           LOGGER TRACE (entity self ++ " fetchMetadata raw results:"
                         ++ JSON_stringify_2
                              (VArr (map value_of_show_column results))) ;;
           let m := map (column_of (self_options self)) results in
           write_metadata m ;;
           LOGGER TRACE ("Finalized Metadata: "
                         ++ JSON_stringify_2
                              (VArr (map value_of_column_meta m))) ;;
           ret m)
          (fun err =>
             LOGGER ERROR (entity self ++ " fetchMetadata error. Details: "
                           ++ JSON_stringify err) ;;
             reject err) w
    | Some m =>
        (LOGGER TRACE "(Metadata already loaded)" ;; ret m) w
    end.

Definition get (id : value) : M object :=
  LOGGER DEBUG (entity self ++ " get...") ;;
  catch
    (_ <- fetchMetadata ;;
     let sql := "SELECT * FROM " ++ table self ++ " WHERE id = ?" in
     LOGGER DEBUG ("  query sql: " ++ sql) ;;
     results <- callDb sql [id] ;;
     LOGGER TRACE (entity self ++ " get results:"
                   ++ JSON_stringify (value_of_results results)) ;;
     ret (first_or_empty results))
    (fun err =>
       LOGGER ERROR (entity self ++ " get error. Details:" ++ nl
                     ++ JSON_stringify err) ;;
       reject err).

Definition all (opts : option query_opts) : M db_results :=
  LOGGER DEBUG (entity self ++ " all...") ;;
  catch
    (_ <- fetchMetadata ;;
     m <- read_metadata ;;
     let sql := all_sql self m opts in
     LOGGER DEBUG ("  query sql: " ++ sql) ;;
     results <- callDb sql [] ;;
     LOGGER DEBUG (entity self ++ " all results:"
                   ++ JSON_stringify (value_of_results results)) ;;
     ret results)
    (fun err =>
       LOGGER ERROR (entity self ++ " all error. Details:" ++ nl
                     ++ JSON_stringify err) ;;
       reject err).

Definition find (query : object) (opts : option query_opts) : M db_results :=
  LOGGER DEBUG (entity self ++ " find...") ;;
  catch
    (_ <- fetchMetadata ;;
     m <- read_metadata ;;
     let '(sql, parms) := find_sql self m query opts in
     LOGGER DEBUG ("  query sql: " ++ sql) ;;
     LOGGER DEBUG ("  query parms: " ++ JSON_stringify (VArr parms)) ;;
     results <- callDb sql parms ;;
     LOGGER DEBUG (entity self ++ " find results:"
                   ++ JSON_stringify (value_of_results results)) ;;
     ret results)
    (fun err =>
       LOGGER ERROR (entity self ++ " find error. Details:" ++ nl
                     ++ JSON_stringify err) ;;
       reject err).

Definition one (query : object) (opts : option query_opts) : M object :=
  catch
    (result <- find query opts ;;
     ret (first_or_empty result))
    (fun err => reject err).

Definition selectWhere (where_ : string) (parms : list value)
  (opts : option query_opts) : M db_results :=
  LOGGER DEBUG (entity self ++ " selectWhere...") ;;
  catch
    (_ <- fetchMetadata ;;
     m <- read_metadata ;;
     let sql := selectWhere_sql self m where_ opts in
     LOGGER DEBUG ("  query sql: " ++ sql) ;;
     LOGGER DEBUG ("  query parms: " ++ JSON_stringify (VArr parms)) ;;
     results <- callDb sql [] ;;
     LOGGER DEBUG (entity self ++ " selectWhere results:"
                   ++ JSON_stringify (value_of_results results)) ;;
     ret results)
    (fun err =>
       LOGGER ERROR (entity self ++ " selectWhere error. Details:" ++ nl
                     ++ JSON_stringify err) ;;
       reject err).

(** The result shaping of [create]: the generated id is stored under the
    auto-increment key column when a row was inserted. *)
Definition with_generated_key (m : list column_meta) (results : db_results)
  (save : object) : object :=
  match results with
  | OkPacket affected insertId =>
      if (0 <? affected)%Z && (0 <? insertId)%Z then
        match List.find (fun c => autoincrement c && pk c) m with
        | Some keyCol => set_prop save (column keyCol) (VNum insertId)
        | None => save
        end
      else save
  | Rows _ => save
  end.

Definition create (save : object) : M object :=
  LOGGER DEBUG (entity self ++ " create...") ;;
  catch
    (_ <- fetchMetadata ;;
     m <- read_metadata ;;
     '(sql, parms) <- lift (create_sql moment_format self m save) ;;
     LOGGER DEBUG ("  create sql: " ++ sql) ;;
     LOGGER DEBUG ("  create parameters: " ++ JSON_stringify (VArr parms)) ;;
     results <- callDb sql parms ;;
     LOGGER TRACE ("  create raw results: "
                   ++ JSON_stringify (value_of_results results)) ;;
     m <- read_metadata ;;
     let save := with_generated_key m results save in
     LOGGER DEBUG (entity self ++ " create results:"
                   ++ JSON_stringify (value_of_results results)) ;;
     ret save)
    (fun err =>
       LOGGER ERROR (entity self ++ " create error. Details:" ++ nl
                     ++ JSON_stringify err) ;;
       reject err).

Definition update (save : object) : M object :=
  LOGGER DEBUG (entity self ++ " update...") ;;
  catch
    (_ <- fetchMetadata ;;
     m <- read_metadata ;;
     '(sql, parms) <- lift (update_sql moment_format self m save) ;;
     LOGGER DEBUG ("  update sql: " ++ sql) ;;
     LOGGER DEBUG ("  update parameters: " ++ JSON_stringify (VArr parms)) ;;
     results <- callDb sql parms ;;
     let save := set_prop save "_affectedRows" (affectedRows_of results) in
     LOGGER DEBUG (entity self ++ " update results:"
                   ++ JSON_stringify (value_of_results results)) ;;
     ret save)
    (fun err =>
       LOGGER ERROR (entity self ++ " update error. Details: " ++ nl
                     ++ JSON_stringify err) ;;
       reject err).

Definition deleteOne (toDelete : object) : M object :=
  LOGGER DEBUG (entity self ++ " delete...") ;;
  catch
    (_ <- fetchMetadata ;;
     m <- read_metadata ;;
     let '(sql, parms) := deleteOne_sql self m toDelete in
     LOGGER DEBUG ("  deleteOne sql: " ++ sql) ;;
     LOGGER DEBUG ("  deleteOne parameters: "
                   ++ JSON_stringify (VArr parms)) ;;
     results <- callDb sql parms ;;
     LOGGER DEBUG (entity self ++ " deleteOne results:"
                   ++ JSON_stringify (value_of_results results)) ;;
     ret (set_prop toDelete "_affectedRows" (affectedRows_of results)))
    (fun err =>
       LOGGER ERROR (entity self ++ " deleteOne error. Details:" ++ nl
                     ++ JSON_stringify err) ;;
       reject err).

Definition delete (id : value) : M object :=
  LOGGER DEBUG (entity self ++ " delete...") ;;
  catch
    (_ <- fetchMetadata ;;
     let parms := [id] in
     let sql := "DELETE FROM " ++ table self in
     let sql := sql ++ " WHERE id = ?" in
     LOGGER DEBUG ("  delete sql: " ++ sql) ;;
     LOGGER DEBUG ("  delete parameters: " ++ JSON_stringify (VArr parms)) ;;
     results <- callDb sql parms ;;
     LOGGER DEBUG (entity self ++ " delete results:"
                   ++ JSON_stringify (value_of_results results)) ;;
     ret [("_affectedRows", affectedRows_of results)])
    (fun err =>
       LOGGER ERROR (entity self ++ " delete error. Details:" ++ nl
                     ++ JSON_stringify err) ;;
       reject err).

(** [deleteMatching] declares no [sql]: its first statement after the
    metadata step, [sql+=' WHERE '], reads a variable bound nowhere in the
    module, so the runtime raises a [ReferenceError] there and the rest of
    the callback (the template loop and the [callDb]) is never reached.
    The handler rejects with [err.code]. *)
Definition deleteMatching (criteria : object) : M object :=
  LOGGER DEBUG (entity self ++ " delete...") ;;
  catch
    (_ <- fetchMetadata ;;
     reject (VError "ReferenceError" "sql is not defined"))
    (fun err =>
       LOGGER ERROR (entity self ++ " deleteMatching error. Details:" ++ nl
                     ++ JSON_stringify err) ;;
       reject (member_code err)).

Definition deleteWhere (where_ : string) (parms : list value) : M object :=
  LOGGER DEBUG (entity self ++ " deleteWhere...") ;;
  catch
    (_ <- fetchMetadata ;;
     let sql := deleteWhere_sql self where_ in
     LOGGER DEBUG ("  deleteWhere sql: " ++ sql) ;;
     LOGGER DEBUG ("  deleteWhere parameters: "
                   ++ JSON_stringify (VArr parms)) ;;
     results <- callDb sql parms ;;
     LOGGER DEBUG (entity self ++ " deleteWhere results:"
                   ++ JSON_stringify (value_of_results results)) ;;
     ret [("_affectedRows", affectedRows_of results)])
    (fun err =>
       LOGGER ERROR (entity self ++ " deleteWhere error. Details:" ++ nl
                     ++ JSON_stringify err) ;;
       reject (member_code err)).

(** The public operations with their arguments, and what each resolves
    with. *)
Inductive operation : Type :=
| Get (id : value)
| All (opts : option query_opts)
| Find (query : object) (opts : option query_opts)
| One (query : object) (opts : option query_opts)
| SelectWhere (where_ : string) (parms : list value)
    (opts : option query_opts)
| Create (save : object)
| Update (save : object)
| DeleteOne (toDelete : object)
| Delete (id : value)
| DeleteMatching (criteria : object)
| DeleteWhere (where_ : string) (parms : list value).

Inductive payload : Type :=
| Entity (o : object)
| ResultSet (r : db_results).

Definition fmap {A B} (f : A -> B) (m : M A) : M B :=
  fun w =>
    match m w with
    | (Normal a, w') => (Normal (f a), w')
    | (Throw e, w') => (Throw e, w')
    end.

Definition perform (op : operation) : M payload :=
  match op with
  | Get id => fmap Entity (get id)
  | All opts => fmap ResultSet (all opts)
  | Find query opts => fmap ResultSet (find query opts)
  | One query opts => fmap Entity (one query opts)
  | SelectWhere where_ parms opts =>
      fmap ResultSet (selectWhere where_ parms opts)
  | Create save => fmap Entity (create save)
  | Update save => fmap Entity (update save)
  | DeleteOne toDelete => fmap Entity (deleteOne toDelete)
  | Delete id => fmap Entity (delete id)
  | DeleteMatching criteria => fmap Entity (deleteMatching criteria)
  | DeleteWhere where_ parms => fmap Entity (deleteWhere where_ parms)
  end.

(** Operations issued one after the other on the same handle, each awaited
    before the next; the outcomes in order. *)
Fixpoint perform_all (ops : list operation) (w : world)
  : list (completion payload) * world :=
  match ops with
  | [] => ([], w)
  | op :: rest =>
      let '(r, w') := perform op w in
      let '(rs, w'') := perform_all rest w' in
      (r :: rs, w'')
  end.

(** A handle right after construction: nothing logged, nothing sent,
    [this.metadata = null]. *)
Definition fresh (d : D) : world :=
  {| db := d; calls := []; log := []; metadata := None |}.

(** ** Overlapping calls of [fetchMetadata] *)

(** [fetchMetadata] runs in two turns of the event loop: the promise
    executor (the cache test and, when the cache is unset, the hand-over of
    the statement to the pool), and later the pool's callback.  Between the
    two, other callers run. *)
Inductive caller : Type :=
| Idle
| Waiting (reply : value * list show_column)
| Fulfilled (m : list column_meta)
| Rejected (err : value).

(** First turn: the body of [new Promise(...)] up to [pool.query]. *)
Definition fetchMetadata_begin (w : world) : caller * world :=
  match metadata w with
  | None =>
      let sql := show_columns_sql (table self) in
      let '(d, reply) := pool_query_columns (db w) sql [] in
      (Waiting reply,
       {| db := d; calls := calls w ++ [(sql, [])]; log := log w;
          metadata := metadata w |})
  | Some m =>
      match (LOGGER TRACE "(Metadata already loaded)" ;; ret m) w with
      | (Normal m, w') => (Fulfilled m, w')
      | (Throw e, w') => (Rejected e, w')
      end
  end.

(** Second turn: the callback of [pool.query] with the [then] and [catch]
    handlers of [fetchMetadata]. *)
Definition fetchMetadata_finish (reply : value * list show_column)
  (w : world) : caller * world :=
  let '(err, results) := reply in
  let chain :=
    catch
      (results <- lift (if truthy err then Throw err else Normal results) ;;
       LOGGER TRACE (entity self ++ " fetchMetadata raw results:"
                     ++ JSON_stringify_2
                          (VArr (map value_of_show_column results))) ;;
       let m := map (column_of (self_options self)) results in
       write_metadata m ;;
       LOGGER TRACE ("Finalized Metadata: "
                     ++ JSON_stringify_2
                          (VArr (map value_of_column_meta m))) ;;
       ret m)
      (fun err =>
         LOGGER ERROR (entity self ++ " fetchMetadata error. Details: "
                       ++ JSON_stringify err) ;;
         reject err) in
  match chain w with
  | (Normal m, w') => (Fulfilled m, w')
  | (Throw e, w') => (Rejected e, w')
  end.

(** The turns of several callers sharing one handle. *)
Inductive event : Type :=
| Begin (i : nat)
| Finish (i : nat).

Record loop : Type := {
  shared : world;
  callers : list caller
}.

Fixpoint set_nth {A} (i : nat) (a : A) (l : list A) : list A :=
  match l, i with
  | [], _ => []
  | _ :: rest, O => a :: rest
  | x :: rest, S j => x :: set_nth j a rest
  end.

Definition turn (s : loop) (ev : event) : loop :=
  match ev with
  | Begin i =>
      match nth_error (callers s) i with
      | Some Idle =>
          let '(c, w) := fetchMetadata_begin (shared s) in
          {| shared := w; callers := set_nth i c (callers s) |}
      | _ => s
      end
  | Finish i =>
      match nth_error (callers s) i with
      | Some (Waiting reply) =>
          let '(c, w) := fetchMetadata_finish reply (shared s) in
          {| shared := w; callers := set_nth i c (callers s) |}
      | _ => s
      end
  end.

Definition run_loop (evs : list event) (s : loop) : loop :=
  fold_left turn evs s.

(** [n] callers about to use the handle in world [w]. *)
Definition waiting_room (n : nat) (w : world) : loop :=
  {| shared := w; callers := repeat Idle n |}.

(** ** Vocabulary of the statements *)

(** The key columns as the default branch writes them into [sql]: one
    [<column> ASC] after the other, nothing in between. *)
Fixpoint asc_run (keys : list column_meta) : string :=
  match keys with
  | [] => ""
  | c :: rest => column c ++ " ASC" ++ asc_run rest
  end.

(** [n] separators in a row. *)
Fixpoint commas (n : nat) : string :=
  match n with
  | O => ""
  | S k => ", " ++ commas k
  end.

(** The clause the documentation describes: the key columns ascending,
    separated by commas. *)
Fixpoint asc_list (keys : list column_meta) : string :=
  match keys with
  | [] => ""
  | [c] => column c ++ " ASC"
  | c :: rest => column c ++ " ASC, " ++ asc_list rest
  end.

(** The LIMIT and OFFSET text for given options. *)
Definition limit_clause (o : query_opts) : string :=
  " LIMIT "
  ++ match limit o with Some n => number_text n | None => "1000" end
  ++ match offset o with Some n => " OFFSET " ++ number_text n | None => "" end.

(** The types on which an empty string stands for absent data. *)
Definition empty_means_absent (datatype : string) : Prop :=
  datatype = "datetime" \/ datatype = "timestamp"
  \/ (exists rest, datatype = "int" ++ rest)
  \/ (exists rest, datatype = "num" ++ rest)
  \/ (exists rest, datatype = "dec" ++ rest).

(** An entry of [save] that adds nothing to the SET list: its key is no
    non-key column, or it is the created-timestamp column. *)
Definition adds_no_set (not_pks : list column_meta) (entry : string * value)
  : bool :=
  match List.find (fun c => column c =? fst entry) not_pks with
  | Some col => names_column (created_timestamp_column (self_options self)) col
  | None => true
  end.

(** A computation that leaves the pool, the call log and the cache as they
    are (it may log). *)
Definition quiet {A} (m : M A) : Prop :=
  forall w,
    db (snd (m w)) = db w /\ calls (snd (m w)) = calls w
    /\ metadata (snd (m w)) = metadata w.

(** A computation that neither touches the cache nor introspects. *)
Definition keeps_cache {A} (m : M A) : Prop :=
  forall w,
    metadata (snd (m w)) = metadata w
    /\ introspections (calls (snd (m w))) = introspections (calls w).

(** The outcome of handing a statement to the pool. *)
Definition reply_of (w : world) (sql : string) (parms : list value)
  : completion db_results :=
  let '(_, (err, results)) := pool_query (db w) sql parms in
  if truthy err then Throw err else Normal results.

(** The reply of the pool to the introspection statement in state [d]. *)
Definition catalog_reply (d : D) : D * (value * list show_column) :=
  pool_query_columns d (show_columns_sql (table self)) [].

(** A computation that loads the cache when it is unset and the
    introspection succeeds, with one introspection, and otherwise leaves a
    loaded cache alone. *)
Definition loads_once {A} (m : M A) : Prop :=
  (forall w md,
      metadata w = Some md ->
      metadata (snd (m w)) = Some md
      /\ introspections (calls (snd (m w))) = introspections (calls w))
  /\ (forall w,
         metadata w = None ->
         truthy (fst (snd (catalog_reply (db w)))) = false ->
         metadata (snd (m w))
         = Some (map (column_of (self_options self))
                   (snd (snd (catalog_reply (db w)))))
         /\ introspections (calls (snd (m w)))
            = (introspections (calls w)
               ++ [(show_columns_sql (table self), [])])%list).

(** The statement an operation builds on metadata [md], or what building
    it throws. *)
Definition statement_of (md : list column_meta) (op : operation)
  : completion call :=
  match op with
  | Get id => Normal ("SELECT * FROM " ++ table self ++ " WHERE id = ?", [id])
  | All opts => Normal (all_sql self md opts, [])
  | Find query opts | One query opts => Normal (find_sql self md query opts)
  | SelectWhere where_ _ opts => Normal (selectWhere_sql self md where_ opts, [])
  | Create save => create_sql moment_format self md save
  | Update save => update_sql moment_format self md save
  | DeleteOne toDelete => Normal (deleteOne_sql self md toDelete)
  | Delete id => Normal ("DELETE FROM " ++ table self ++ " WHERE id = ?", [id])
  | DeleteMatching _ => Throw (VError "ReferenceError" "sql is not defined")
  | DeleteWhere where_ parms => Normal (deleteWhere_sql self where_, parms)
  end.

(** The operations whose handler ends in [reject(err)]; the other two end
    in [reject(err.code)]. *)
Definition rejects_with_err (op : operation) : bool :=
  match op with
  | DeleteMatching _ | DeleteWhere _ _ => false
  | _ => true
  end.

(** [parts] with [sep] between them. *)
Fixpoint join (sep : string) (parts : list string) : string :=
  match parts with
  | [] => ""
  | [part] => part
  | part :: rest => part ++ sep ++ join sep rest
  end.

(** What one token of [opts.orderBy] contributes: the column without its
    sign, and the direction. *)
Definition order_term (token : string) : string :=
  if startsWith token "-" then substr1 token ++ " DESC"
  else if startsWith token "+" then substr1 token ++ " ASC"
  else token ++ " ASC".


(** The equality test on one column, with its placeholder. *)
Definition equals_placeholder (name : string) : string := name ++ "=?".

(** The key of an object: the key columns with the values the object holds
    for them. *)
Definition key_entries (o : object) (keys : list column_meta) : object :=
  map (fun col => (column col, prop o (column col))) keys.

(** The columns [create] writes: all but the auto-increment keys. *)
Definition written_columns (md : list column_meta) : list column_meta :=
  filter (fun col => (pk col && negb (autoincrement col)) || negb (pk col)) md.

(** A column whose value [create] takes from the database, not from
    [save]. *)
Definition is_special (col : column_meta) : bool :=
  names_column (created_timestamp_column (self_options self)) col
  || names_column (updated_timestamp_column (self_options self)) col
  || names_column (version_number_column (self_options self)) col.

(** What [create] writes in the VALUES list for a column. *)
Definition value_text (col : column_meta) : string :=
  if names_column (created_timestamp_column (self_options self)) col
  then "CURRENT_TIMESTAMP"
  else if names_column (updated_timestamp_column (self_options self)) col
  then "CURRENT_TIMESTAMP"
  else if names_column (version_number_column (self_options self)) col
  then "0"
  else "?".


(** The log entries at error severity. *)
Definition errors (entries : list (level * string)) : list (level * string) :=
  filter (fun entry => match fst entry with ERROR => true | _ => false end)
    entries.

(** Whether a chain was rejected. *)
Definition rejected {A} (c : completion A) : bool :=
  match c with
  | Throw _ => true
  | Normal _ => false
  end.

(** ** Strings *)

Lemma append_assoc (a b c : string) : (a ++ b) ++ c = a ++ b ++ c.
Proof.
  induction a as [|ch a IH]; simpl; [reflexivity | now rewrite IH].
Qed.

Lemma append_empty_r (s : string) : s ++ "" = s.
Proof.
  induction s as [|ch s IH]; simpl; [reflexivity | now rewrite IH].
Qed.

Lemma append_cancel_l (s a b : string) : s ++ a = s ++ b -> a = b.
Proof.
  induction s as [|ch s IH]; simpl; intros H; [exact H|].
  injection H as H. now apply IH.
Qed.

Lemma startsWith_spec (s p : string) :
  startsWith s p = true <-> exists rest, s = p ++ rest.
Proof.
  unfold startsWith. revert s.
  induction p as [|a p IH]; intros s.
  - split; [intros _; now exists s | now destruct s].
  - destruct s as [|b s]; simpl.
    + split; [discriminate | intros [rest H]; discriminate].
    + destruct (ascii_dec a b) as [->|Hab].
      * rewrite IH. split; intros [rest H]; exists rest.
        -- now rewrite H.
        -- now inversion H.
      * split; [discriminate | intros [rest H]; inversion H; congruence].
Qed.

(** ** The trailing clause *)

Lemma pk_order_loop_eq (keys : list column_meta) :
  forall i sql orderBy_,
    pk_order_loop i keys sql orderBy_
    = (sql ++ asc_run keys,
       orderBy_ ++ commas (if (0 <? i)%nat then length keys
                           else pred (length keys))).
Proof.
  induction keys as [|c rest IH]; intros i sql ob; simpl.
  - rewrite !append_empty_r. destruct (0 <? i)%nat; simpl;
      now rewrite ?append_empty_r.
  - rewrite IH. simpl. rewrite !append_assoc.
    destruct (0 <? i)%nat; simpl; rewrite ?append_assoc; reflexivity.
Qed.

(** Without options the result is the statement, [ ORDER BY ], the key
    columns run together, and the separators after them; nothing else. *)
Lemma appendOrderByAndLimit_no_opts (md : list column_meta) (sql : string) :
  _appendOrderByAndLimit md sql None
  = sql ++ " ORDER BY " ++ asc_run (pks md)
    ++ commas (pred (length (pks md))).
Proof.
  unfold _appendOrderByAndLimit. simpl.
  rewrite pk_order_loop_eq. simpl.
  rewrite !append_assoc, append_empty_r. reflexivity.
Qed.

(** With options the result ends with the LIMIT clause, and the OFFSET
    clause when an offset is given. *)
Lemma appendOrderByAndLimit_with_opts (md : list column_meta) (sql : string)
  (o : query_opts) :
  exists body,
    _appendOrderByAndLimit md sql (Some o) = sql ++ body ++ limit_clause o.
Proof.
  unfold _appendOrderByAndLimit, limit_clause.
  destruct (orderBy o) as [[|tok toks]|].
  - simpl. rewrite pk_order_loop_eq. simpl.
    exists (" ORDER BY " ++ asc_run (pks md)
            ++ commas (pred (length (pks md)))).
    rewrite !append_assoc.
    destruct (limit o), (offset o); simpl;
      rewrite ?append_assoc, ?append_empty_r; reflexivity.
  - set (ob := orderBy_loop 0 (tok :: toks) ("" ++ " ORDER BY ")).
    destruct (ob =? "") eqn:E.
    + rewrite pk_order_loop_eq. simpl.
      exists (" ORDER BY " ++ asc_run (pks md)
              ++ ob ++ commas (pred (length (pks md)))).
      rewrite !append_assoc.
      destruct (limit o), (offset o); simpl;
      rewrite ?append_assoc, ?append_empty_r; reflexivity.
    + exists ob. destruct (limit o), (offset o); simpl;
        rewrite ?append_assoc, ?append_empty_r; reflexivity.
  - simpl. rewrite pk_order_loop_eq. simpl.
    exists (" ORDER BY " ++ asc_run (pks md)
            ++ commas (pred (length (pks md)))).
    rewrite !append_assoc.
    destruct (limit o), (offset o); simpl;
      rewrite ?append_assoc, ?append_empty_r; reflexivity.
Qed.

Lemma appendOrderByAndLimit_extends (md : list column_meta) (sql : string)
  (opts : option query_opts) :
  exists tail_, _appendOrderByAndLimit md sql opts = sql ++ tail_.
Proof.
  destruct opts as [o|].
  - destruct (appendOrderByAndLimit_with_opts md sql o) as [body H].
    exists (body ++ limit_clause o). exact H.
  - rewrite appendOrderByAndLimit_no_opts. eexists. reflexivity.
Qed.

(** ** The statements of the operations are never introspections *)

Lemma show_columns_is_introspection (t : string) (parms : list value) :
  is_introspection (show_columns_sql t, parms) = true.
Proof.
  unfold is_introspection. apply startsWith_spec. eexists. reflexivity.
Qed.

Lemma select_not_show (m : list column_meta) (sql : string)
  (opts : option query_opts) (parms : list value) :
  (exists rest, sql = "SELECT * FROM " ++ rest) ->
  is_introspection (_appendOrderByAndLimit m sql opts, parms) = false.
Proof.
  intros [rest ->].
  destruct (appendOrderByAndLimit_extends m ("SELECT * FROM " ++ rest) opts)
    as [t ->].
  reflexivity.
Qed.

Lemma all_sql_not_show (m : list column_meta) (opts : option query_opts)
  (parms : list value) :
  is_introspection (all_sql self m opts, parms) = false.
Proof.
  unfold all_sql. apply select_not_show. eexists. reflexivity.
Qed.

Lemma find_sql_not_show (m : list column_meta) (query : object)
  (opts : option query_opts) :
  is_introspection (find_sql self m query opts) = false.
Proof.
  unfold find_sql.
  destruct (where_loop _ query "" []) as [where_ parms].
  apply select_not_show. eexists. simpl. reflexivity.
Qed.

Lemma selectWhere_sql_not_show (m : list column_meta) (where_ : string)
  (opts : option query_opts) (parms : list value) :
  is_introspection (selectWhere_sql self m where_ opts, parms) = false.
Proof.
  unfold selectWhere_sql. apply select_not_show. eexists. simpl. reflexivity.
Qed.

Lemma create_sql_not_show (m : list column_meta) (save : object)
  (c : call) :
  create_sql moment_format self m save = Normal c ->
  is_introspection c = false.
Proof.
  unfold create_sql.
  destruct (create_loop _ _ _ _ _ _ _) as [[[cols vals] parms]|e];
    [|discriminate].
  intros H. injection H as <-. reflexivity.
Qed.

Lemma update_sql_not_show (m : list column_meta) (save : object) (c : call) :
  update_sql moment_format self m save = Normal c ->
  is_introspection c = false.
Proof.
  unfold update_sql.
  destruct (update_loop _ _ _ _ _ _) as [[sets parms]|e]; [|discriminate].
  destruct (pk_where_loop _ _ _ _) as [where_ parms'].
  intros H. injection H as <-. reflexivity.
Qed.

Lemma deleteOne_sql_not_show (m : list column_meta) (toDelete : object) :
  is_introspection (deleteOne_sql self m toDelete) = false.
Proof.
  unfold deleteOne_sql.
  destruct (pk_where_loop _ _ _ _) as [where_ parms]. reflexivity.
Qed.

(** ** How the cache evolves *)

Lemma keeps_ret {A} (a : A) : keeps_cache (ret a).
Proof. intros w. now split. Qed.

Lemma keeps_reject {A} (e : value) : keeps_cache (@reject A e).
Proof. intros w. now split. Qed.

Lemma keeps_lift {A} (c : completion A) : keeps_cache (lift c).
Proof. intros w. now split. Qed.

Lemma keeps_LOGGER (l : level) (msg : string) : keeps_cache (LOGGER l msg).
Proof. intros w. now split. Qed.

Lemma keeps_read_metadata : keeps_cache read_metadata.
Proof. intros w. now split. Qed.

Lemma keeps_bind {A B} (m : M A) (k : A -> M B) :
  keeps_cache m -> (forall a, keeps_cache (k a)) -> keeps_cache (bind m k).
Proof.
  intros Hm Hk w. unfold bind. specialize (Hm w).
  destruct (m w) as [[a|e] w1]; simpl in *.
  - destruct (Hk a w1) as [H1 H2]. destruct Hm as [H3 H4].
    split; congruence.
  - exact Hm.
Qed.

Lemma keeps_catch {A} (m : M A) (h : value -> M A) :
  keeps_cache m -> (forall e, keeps_cache (h e)) -> keeps_cache (catch m h).
Proof.
  intros Hm Hh w. unfold catch. specialize (Hm w).
  destruct (m w) as [[a|e] w1]; simpl in *.
  - exact Hm.
  - destruct (Hh e w1) as [H1 H2]. destruct Hm as [H3 H4].
    split; congruence.
Qed.

Lemma keeps_bind_lift {A B} (c : completion A) (k : A -> M B) :
  (forall a, c = Normal a -> keeps_cache (k a)) ->
  keeps_cache (bind (lift c) k).
Proof.
  intros Hk w. unfold bind, lift. destruct c as [a|e].
  - now apply Hk.
  - now split.
Qed.

Lemma keeps_callDb (sql : string) (parms : list value) :
  is_introspection (sql, parms) = false -> keeps_cache (callDb sql parms).
Proof.
  intros H w. unfold callDb.
  destruct (pool_query (db w) sql parms) as [d [err results]].
  assert (E : introspections (calls w ++ [(sql, parms)])%list
              = introspections (calls w)).
  { unfold introspections. rewrite filter_app. simpl. rewrite H.
    apply app_nil_r. }
  destruct (truthy err); simpl; now split.
Qed.

Lemma loads_fetchMetadata : loads_once fetchMetadata.
Proof.
  split.
  - intros w md H. unfold fetchMetadata. rewrite H. now split.
  - intros w H Hok. unfold fetchMetadata, catalog_reply in *. rewrite H.
    unfold catch, bind, callDb_columns.
    destruct (pool_query_columns (db w) (show_columns_sql (table self)) [])
      as [d [err results]].
    simpl in Hok. rewrite Hok. simpl. split; [reflexivity|].
    unfold introspections. rewrite filter_app. simpl.
    now rewrite show_columns_is_introspection.
Qed.

Lemma loads_bind {A B} (m : M A) (k : A -> M B) :
  loads_once m -> (forall a, keeps_cache (k a)) -> loads_once (bind m k).
Proof.
  intros [Hs Hn] Hk. split.
  - intros w md H. unfold bind. specialize (Hs w md H).
    destruct (m w) as [[a|e] w1]; simpl in *; [|exact Hs].
    destruct (Hk a w1) as [H1 H2]. destruct Hs as [H3 H4]. split; congruence.
  - intros w H Hok. unfold bind. specialize (Hn w H Hok).
    destruct (m w) as [[a|e] w1]; simpl in *; [|exact Hn].
    destruct (Hk a w1) as [H1 H2]. destruct Hn as [H3 H4]. split; congruence.
Qed.

Lemma loads_catch {A} (m : M A) (h : value -> M A) :
  loads_once m -> (forall e, keeps_cache (h e)) -> loads_once (catch m h).
Proof.
  intros [Hs Hn] Hh. split.
  - intros w md H. unfold catch. specialize (Hs w md H).
    destruct (m w) as [[a|e] w1]; simpl in *; [exact Hs|].
    destruct (Hh e w1) as [H1 H2]. destruct Hs as [H3 H4]. split; congruence.
  - intros w H Hok. unfold catch. specialize (Hn w H Hok).
    destruct (m w) as [[a|e] w1]; simpl in *; [exact Hn|].
    destruct (Hh e w1) as [H1 H2]. destruct Hn as [H3 H4]. split; congruence.
Qed.

Lemma loads_after_log {A} (l : level) (msg : string) (m : M A) :
  loads_once m -> loads_once (LOGGER l msg ;; m).
Proof.
  intros [Hs Hn]. split.
  - intros w md H.
    exact (Hs {| db := db w; calls := calls w;
                 log := (log w ++ [(l, msg)])%list;
                 metadata := metadata w |} md H).
  - intros w H Hok.
    exact (Hn {| db := db w; calls := calls w;
                 log := (log w ++ [(l, msg)])%list;
                 metadata := metadata w |} H Hok).
Qed.

Lemma loads_fmap {A B} (f : A -> B) (m : M A) :
  loads_once m -> loads_once (fmap f m).
Proof.
  intros [Hs Hn]. split.
  - intros w md H. unfold fmap. specialize (Hs w md H).
    now destruct (m w) as [[a|e] w1].
  - intros w H Hok. unfold fmap. specialize (Hn w H Hok).
    now destruct (m w) as [[a|e] w1].
Qed.

Ltac cache_steps :=
  repeat first
    [ apply keeps_ret | apply keeps_reject | apply keeps_LOGGER
    | apply keeps_read_metadata | apply keeps_lift
    | apply keeps_bind; [|intros ?] ].

Ltac cache_handler := intros ?; cache_steps.

Lemma loads_get (id : value) : loads_once (get id).
Proof.
  unfold get. apply loads_after_log, loads_catch; [|cache_handler].
  apply loads_bind; [apply loads_fetchMetadata|]. intros _. cache_steps.
  apply keeps_callDb. reflexivity.
Qed.

Lemma loads_all (opts : option query_opts) : loads_once (all opts).
Proof.
  unfold all. apply loads_after_log, loads_catch; [|cache_handler].
  apply loads_bind; [apply loads_fetchMetadata|]. intros _. cache_steps.
  apply keeps_callDb, all_sql_not_show.
Qed.

Lemma loads_find (query : object) (opts : option query_opts) :
  loads_once (find query opts).
Proof.
  unfold find. apply loads_after_log, loads_catch; [|cache_handler].
  apply loads_bind; [apply loads_fetchMetadata|]. intros _. cache_steps.
  pose proof (find_sql_not_show a query opts) as H.
  destruct (find_sql self a query opts) as [sql parms]. cache_steps.
  apply keeps_callDb, H.
Qed.

Lemma loads_one (query : object) (opts : option query_opts) :
  loads_once (one query opts).
Proof.
  unfold one. apply loads_catch; [|cache_handler].
  apply loads_bind; [apply loads_find|]. intros r. cache_steps.
Qed.

Lemma loads_selectWhere (where_ : string) (parms : list value)
  (opts : option query_opts) : loads_once (selectWhere where_ parms opts).
Proof.
  unfold selectWhere. apply loads_after_log, loads_catch; [|cache_handler].
  apply loads_bind; [apply loads_fetchMetadata|]. intros _. cache_steps.
  apply keeps_callDb, selectWhere_sql_not_show.
Qed.

Lemma loads_create (save : object) : loads_once (create save).
Proof.
  unfold create. apply loads_after_log, loads_catch; [|cache_handler].
  apply loads_bind; [apply loads_fetchMetadata|]. intros _.
  apply keeps_bind; [apply keeps_read_metadata|]. intros m.
  apply keeps_bind_lift. intros [sql parms] H. cache_steps.
  apply keeps_callDb, (create_sql_not_show m save), H.
Qed.

Lemma loads_update (save : object) : loads_once (update save).
Proof.
  unfold update. apply loads_after_log, loads_catch; [|cache_handler].
  apply loads_bind; [apply loads_fetchMetadata|]. intros _.
  apply keeps_bind; [apply keeps_read_metadata|]. intros m.
  apply keeps_bind_lift. intros [sql parms] H. cache_steps.
  apply keeps_callDb, (update_sql_not_show m save), H.
Qed.

Lemma loads_deleteOne (toDelete : object) : loads_once (deleteOne toDelete).
Proof.
  unfold deleteOne. apply loads_after_log, loads_catch; [|cache_handler].
  apply loads_bind; [apply loads_fetchMetadata|]. intros _. cache_steps.
  pose proof (deleteOne_sql_not_show a toDelete) as H.
  destruct (deleteOne_sql self a toDelete) as [sql parms]. cache_steps.
  apply keeps_callDb, H.
Qed.

Lemma loads_delete (id : value) : loads_once (delete id).
Proof.
  unfold delete. apply loads_after_log, loads_catch; [|cache_handler].
  apply loads_bind; [apply loads_fetchMetadata|]. intros _. cache_steps.
  apply keeps_callDb. reflexivity.
Qed.

Lemma loads_deleteMatching (criteria : object) :
  loads_once (deleteMatching criteria).
Proof.
  unfold deleteMatching.
  apply loads_after_log, loads_catch; [|cache_handler].
  apply loads_bind; [apply loads_fetchMetadata|]. intros _. cache_steps.
Qed.

Lemma loads_deleteWhere (where_ : string) (parms : list value) :
  loads_once (deleteWhere where_ parms).
Proof.
  unfold deleteWhere. apply loads_after_log, loads_catch; [|cache_handler].
  apply loads_bind; [apply loads_fetchMetadata|]. intros _. cache_steps.
  apply keeps_callDb. reflexivity.
Qed.

Lemma loads_perform (op : operation) : loads_once (perform op).
Proof.
  destruct op; simpl; apply loads_fmap;
    auto using loads_get, loads_all, loads_find, loads_one,
      loads_selectWhere, loads_create, loads_update, loads_deleteOne,
      loads_delete, loads_deleteMatching, loads_deleteWhere.
Qed.

Lemma perform_all_cons (op : operation) (ops : list operation) (w : world) :
  snd (perform_all (op :: ops) w) = snd (perform_all ops (snd (perform op w))).
Proof.
  simpl. destruct (perform op w) as [r w1]. simpl.
  now destruct (perform_all ops w1).
Qed.

Lemma perform_all_loaded (ops : list operation) :
  forall w md,
    metadata w = Some md ->
    metadata (snd (perform_all ops w)) = Some md
    /\ introspections (calls (snd (perform_all ops w)))
       = introspections (calls w).
Proof.
  induction ops as [|op ops IH]; intros w md H.
  - now split.
  - rewrite perform_all_cons.
    destruct (proj1 (loads_perform op) w md H) as [H1 H2].
    destruct (IH _ md H1) as [H3 H4]. split; congruence.
Qed.

(** ** Lazy, once-only introspection *)

(** C8. On a fresh handle whose first introspection succeeds, the first
    operation, whichever it is, loads the cache with the parsed reply
    through exactly one SHOW COLUMNS call; after any further operations
    awaited one after the other the cache is the same sequence and the
    call log still holds that single introspection. *)
Theorem introspection_happens_once (op : operation) (ops : list operation)
  (d : D) :
  truthy (fst (snd (catalog_reply d))) = false ->
  let first := snd (perform op (fresh d)) in
  let last := snd (perform_all (op :: ops) (fresh d)) in
  metadata first
  = Some (map (column_of (self_options self)) (snd (snd (catalog_reply d))))
  /\ introspections (calls first) = [(show_columns_sql (table self), [])]
  /\ metadata last = metadata first
  /\ introspections (calls last) = introspections (calls first)
  /\ length (introspections (calls last)) = 1%nat.
Proof.
  intros Hok. cbv zeta. rewrite perform_all_cons.
  destruct (proj2 (loads_perform op) (fresh d) eq_refl Hok) as [H1 H2].
  destruct (perform_all_loaded ops _ _ H1) as [H3 H4].
  simpl in H2. rewrite H3, H4, H1, H2. repeat split.
Qed.

(** ** What reaches the pool *)

(** Runs a chain as far as it computes, leaving the statement builders and
    the strings folded. *)
Ltac run_chain :=
  unfold bind, catch, fetchMetadata, read_metadata, LOGGER, ret, reject, lift;
  cbn -[find_sql selectWhere_sql all_sql deleteOne_sql deleteWhere_sql
        _appendOrderByAndLimit pk_where_loop append].

(** The same for the chains of [create] and [update]. *)
Ltac run_write_chain :=
  unfold bind, catch, fetchMetadata, read_metadata, LOGGER, ret, reject, lift;
  cbn -[find_sql update_sql create_sql selectWhere_sql all_sql deleteOne_sql
        deleteWhere_sql _appendOrderByAndLimit pk_where_loop append].

Lemma find_sql_empty (md : list column_meta) (opts : option query_opts) :
  find_sql self md [] opts
  = (_appendOrderByAndLimit md ("SELECT * FROM " ++ table self ++ "  WHERE ")
       opts, []).
Proof.
  unfold find_sql. simpl.
  rewrite append_empty_r, !append_assoc. reflexivity.
Qed.

Lemma update_loop_no_set (not_pks : list column_meta) (save : object) :
  forall sets parms,
    forallb (adds_no_set not_pks) save = true ->
    update_loop moment_format self not_pks save sets parms
    = Normal (sets, parms).
Proof.
  induction save as [|[k v] rest IH]; intros sets parms H; simpl in *.
  - reflexivity.
  - apply andb_true_iff in H as [H1 H2]. unfold adds_no_set in H1.
    simpl in H1.
    destruct (List.find (fun c => column c =? k) not_pks) as [col|].
    + rewrite H1. now apply IH.
    + now apply IH.
Qed.

Lemma update_sql_no_set (md : list column_meta) (save : object) :
  forallb (adds_no_set (filter (fun col => negb (pk col)) md)) save = true ->
  update_sql moment_format self md save
  = Normal ("UPDATE " ++ table self ++ " SET  WHERE "
              ++ fst (pk_where_loop save (pks md) "" []),
            snd (pk_where_loop save (pks md) "" [])).
Proof.
  intros H. unfold update_sql. rewrite (update_loop_no_set _ _ _ _ H).
  destruct (pk_where_loop save (pks md) "" []) as [where_ parms]. simpl.
  rewrite !append_assoc. reflexivity.
Qed.

(** C4, as the code has it.  On a loaded handle, [find] with an empty
    template performs no local validation: the predicate-less statement
    [SELECT * FROM <table>  WHERE <trailing clause>] is handed to the pool
    with no parameters, and the operation settles as the pool's reply
    does.  Likewise [update] with a save object none of whose entries adds
    a SET clause hands [UPDATE <table> SET  WHERE <key predicate>] to the
    pool and settles on its reply. *)
Theorem empty_template_is_sent (w : world) (md : list column_meta)
  (opts : option query_opts) (save : object) :
  metadata w = Some md ->
  forallb (adds_no_set (filter (fun col => negb (pk col)) md)) save = true ->
  let select :=
    _appendOrderByAndLimit md ("SELECT * FROM " ++ table self ++ "  WHERE ")
      opts in
  let upd :=
    "UPDATE " ++ table self ++ " SET  WHERE "
    ++ fst (pk_where_loop save (pks md) "" []) in
  let upd_parms := snd (pk_where_loop save (pks md) "" []) in
  (calls (snd (find [] opts w)) = (calls w ++ [(select, [])])%list
   /\ fst (find [] opts w) = reply_of w select [])
  /\ (calls (snd (update save w)) = (calls w ++ [(upd, upd_parms)])%list
      /\ fst (update save w)
         = match reply_of w upd upd_parms with
           | Normal results =>
               Normal (set_prop save "_affectedRows"
                         (affectedRows_of results))
           | Throw e => Throw e
           end).
Proof.
  intros Hmd Hsave select upd upd_parms. split.
  - unfold find. run_chain. rewrite Hmd. run_chain.
    rewrite find_sql_empty. fold select. unfold callDb, reply_of. run_chain.
    destruct (pool_query (db w) select []) as [d [err results]].
    destruct (truthy err); run_chain; now split.
  - unfold update. run_write_chain. rewrite Hmd. run_write_chain.
    rewrite (update_sql_no_set md save Hsave).
    fold upd upd_parms. unfold callDb, reply_of. run_write_chain.
    destruct (pool_query (db w) upd upd_parms) as [d [err results]].
    destruct (truthy err); run_write_chain; now split.
Qed.



(** ** Failures of the pool *)

(** When the statement of an operation fails in the pool with [err], the
    operation logs [err] at error severity and rejects: with [err] itself
    in nine operations, with [err.code] in [deleteWhere]. *)
Lemma execution_failure_outcome (op : operation) (w : world)
  (md : list column_meta) (sql : string) (parms : list value) (d : D)
  (err : value) (results : db_results) :
  metadata w = Some md ->
  statement_of md op = Normal (sql, parms) ->
  pool_query (db w) sql parms = (d, (err, results)) ->
  truthy err = true ->
  fst (perform op w)
  = Throw (if rejects_with_err op then err else member_code err)
  /\ exists where_, In (ERROR, where_ ++ JSON_stringify err)
                      (log (snd (perform op w))).
Proof.
  intros Hmd Hst Hq Herr.
  destruct op; cbn [perform statement_of rejects_with_err] in *;
    try discriminate; unfold fmap;
    [ unfold get | unfold all | unfold find | unfold one, find
    | unfold selectWhere | unfold create | unfold update | unfold deleteOne
    | unfold delete | unfold deleteWhere ];
    run_write_chain; rewrite Hmd; run_write_chain;
    first [ rewrite Hst
          | injection Hst as Hs Hp; subst sql parms
          | injection Hst as Hs; rewrite Hs ];
    unfold callDb; run_write_chain;
    match goal with
    | |- context [pool_query ?a ?b ?c] =>
        replace (pool_query a b c) with (d, (err, results))
          by (symmetry; exact Hq)
    end;
    rewrite Herr; run_write_chain;
    (split; [reflexivity|]);
    eexists; rewrite !in_app_iff; cbn [In]; right; left;
    rewrite <- ?append_assoc; reflexivity.
Qed.

(** ** Overlapping first loads *)

(** The two turns, run back to back, are [fetchMetadata]. *)
Lemma fetchMetadata_two_turns (w : world) :
  match fetchMetadata_begin w with
  | (Waiting reply, w1) => fetchMetadata_finish reply w1
  | settled => settled
  end
  = match fetchMetadata w with
    | (Normal m, w') => (Fulfilled m, w')
    | (Throw e, w') => (Rejected e, w')
    end.
Proof.
  unfold fetchMetadata_begin, fetchMetadata.
  destruct (metadata w) eqn:Hmd; [reflexivity|].
  unfold fetchMetadata_finish, callDb_columns, catch, bind, lift, LOGGER,
    write_metadata, ret, reject.
  destruct (pool_query_columns (db w) (show_columns_sql (table self)) [])
    as [d [err results]].
  destruct (truthy err); cbn; rewrite ?Hmd; reflexivity.
Qed.

Lemma nth_error_set_nth_same {A} (l : list A) :
  forall i a x,
    nth_error l i = Some x -> nth_error (set_nth i a l) i = Some a.
Proof.
  induction l as [|y l IH]; intros [|i] a x H; simpl in *;
    try discriminate; [reflexivity | now apply (IH i a x)].
Qed.

Lemma nth_error_set_nth_other {A} (l : list A) :
  forall i j a, i <> j -> nth_error (set_nth j a l) i = nth_error l i.
Proof.
  induction l as [|y l IH]; intros [|i] [|j] a H; simpl; try reflexivity.
  - contradiction.
  - apply IH. congruence.
Qed.

Lemma set_nth_middle {A} (pre : list A) (x a : A) (rest : list A) :
  set_nth (length pre) a (pre ++ x :: rest)%list = (pre ++ a :: rest)%list.
Proof.
  induction pre as [|y pre IH]; simpl; [reflexivity | now rewrite IH].
Qed.

(** A turn of another caller leaves this caller as it is. *)
Lemma turn_elsewhere (s : loop) (ev : event) (i : nat) :
  ev <> Begin i -> ev <> Finish i ->
  nth_error (callers (turn s ev)) i = nth_error (callers s) i.
Proof.
  intros Hb Hf. unfold turn.
  destruct ev as [j|j]; (assert (i <> j) by congruence);
    destruct (nth_error (callers s) j) as [[|reply|m|e]|]; try reflexivity.
  - destruct (fetchMetadata_begin (shared s)) as [c w1]. simpl.
    now apply nth_error_set_nth_other.
  - destruct (fetchMetadata_finish reply (shared s)) as [c w1]. simpl.
    now apply nth_error_set_nth_other.
Qed.

Lemma event_eq_dec (a b : event) : {a = b} + {a <> b}.
Proof. decide equality; apply Nat.eq_dec. Qed.

(** A caller that is not idle is untouched by a [Begin]; one that is not
    waiting is untouched by a [Finish]. *)
Lemma turn_fulfilled (s : loop) (ev : event) (i : nat)
  (m : list column_meta) :
  nth_error (callers s) i = Some (Fulfilled m) ->
  nth_error (callers (turn s ev)) i = Some (Fulfilled m).
Proof.
  intros H.
  destruct (event_eq_dec ev (Begin i)) as [->|Hb];
    [simpl; now rewrite H|].
  destruct (event_eq_dec ev (Finish i)) as [->|Hf];
    [simpl; now rewrite H|].
  now rewrite turn_elsewhere.
Qed.

Lemma run_fulfilled (evs : list event) :
  forall s i m,
    nth_error (callers s) i = Some (Fulfilled m) ->
    nth_error (callers (run_loop evs s)) i = Some (Fulfilled m).
Proof.
  induction evs as [|ev evs IH]; intros s i m H; simpl; [exact H|].
  apply IH. now apply turn_fulfilled.
Qed.

Lemma turn_waiting (s : loop) (ev : event) (i : nat)
  (reply : value * list show_column) :
  nth_error (callers s) i = Some (Waiting reply) ->
  ev <> Finish i ->
  nth_error (callers (turn s ev)) i = Some (Waiting reply).
Proof.
  intros H Hf.
  destruct (event_eq_dec ev (Begin i)) as [->|Hb];
    [simpl; now rewrite H|].
  now rewrite turn_elsewhere.
Qed.

(** The callback of a successful introspection hands its caller the parse
    of the whole reply, and caches it. *)
Lemma finish_waiting (s : loop) (i : nat) (err : value)
  (rows : list show_column) :
  nth_error (callers s) i = Some (Waiting (err, rows)) ->
  truthy err = false ->
  nth_error (callers (turn s (Finish i))) i
  = Some (Fulfilled (map (column_of (self_options self)) rows))
  /\ metadata (shared (turn s (Finish i)))
     = Some (map (column_of (self_options self)) rows).
Proof.
  intros H Herr. simpl. rewrite H.
  unfold fetchMetadata_finish, catch, bind, lift. rewrite Herr. simpl.
  split; [|reflexivity]. now apply (nth_error_set_nth_same _ _ _ _ H).
Qed.

Lemma finish_delivers (evs : list event) :
  forall s i err rows,
    nth_error (callers s) i = Some (Waiting (err, rows)) ->
    truthy err = false ->
    In (Finish i) evs ->
    nth_error (callers (run_loop evs s)) i
    = Some (Fulfilled (map (column_of (self_options self)) rows)).
Proof.
  induction evs as [|ev evs IH]; intros s i err rows H Herr Hin;
    [contradiction|].
  simpl. destruct (event_eq_dec ev (Finish i)) as [->|Hne].
  - apply run_fulfilled. exact (proj1 (finish_waiting s i err rows H Herr)).
  - destruct Hin as [->|Hin]; [contradiction|].
    apply (IH _ i err rows); auto. now apply turn_waiting.
Qed.

(** A caller that begins while the cache is unset hands the pool its own
    SHOW COLUMNS statement and waits for the reply. *)
Lemma turn_begin_unset (pre rest : list caller) (w : world) :
  metadata w = None ->
  turn {| shared := w; callers := (pre ++ Idle :: rest)%list |}
    (Begin (length pre))
  = {| shared :=
         {| db := fst (catalog_reply (db w));
            calls := (calls w ++ [(show_columns_sql (table self), [])])%list;
            log := log w;
            metadata := None |};
       callers := (pre ++ Waiting (snd (catalog_reply (db w))) :: rest)%list |}.
Proof.
  intros Hmd. unfold turn. cbn [callers shared].
  rewrite nth_error_app2, Nat.sub_diag by lia. cbn [nth_error].
  unfold fetchMetadata_begin, catalog_reply. rewrite Hmd.
  destruct (pool_query_columns (db w) (show_columns_sql (table self)) [])
    as [d reply].
  rewrite set_nth_middle. reflexivity.
Qed.

Lemma begins_issue (k : nat) :
  forall (pre : list caller) (w : world),
    metadata w = None ->
    let s := run_loop (map Begin (seq (length pre) k))
               {| shared := w; callers := (pre ++ repeat Idle k)%list |} in
    (exists ws,
        callers s = (pre ++ ws)%list /\ length ws = k
        /\ Forall (fun c => exists reply, c = Waiting reply) ws)
    /\ metadata (shared s) = None
    /\ length (introspections (calls (shared s)))
       = (length (introspections (calls w)) + k)%nat.
Proof.
  induction k as [|k IH]; intros pre w Hmd; cbn zeta.
  - simpl. repeat split; [|exact Hmd|lia].
    exists []. repeat split; constructor.
  - cbn [seq map repeat]. unfold run_loop. cbn [fold_left].
    rewrite (turn_begin_unset pre (repeat Idle k) w Hmd).
    set (reply := snd (catalog_reply (db w))).
    set (w1 := {| db := fst (catalog_reply (db w));
                  calls := (calls w ++ [(show_columns_sql (table self), [])])%list;
                  log := log w; metadata := None |}).
    pose proof (IH (pre ++ [Waiting reply])%list w1 eq_refl) as IH'.
    cbn zeta in IH'. unfold run_loop in IH'.
    replace (length (pre ++ [Waiting reply])%list) with (S (length pre))
      in IH' by (rewrite length_app; simpl; lia).
    replace ((pre ++ [Waiting reply]) ++ repeat Idle k)%list
      with (pre ++ Waiting reply :: repeat Idle k)%list
      in IH' by (rewrite <- app_assoc; reflexivity).
    destruct IH' as ((ws & Hc & Hl & Hw) & Hm & Hi).
    repeat split.
    + exists (Waiting reply :: ws). repeat split.
      * rewrite Hc, <- app_assoc. reflexivity.
      * simpl. now rewrite Hl.
      * constructor; [now exists reply | exact Hw].
    + exact Hm.
    + rewrite Hi. unfold w1, introspections. cbn [calls].
      rewrite filter_app, length_app. cbn [filter].
      rewrite show_columns_is_introspection. simpl. lia.
Qed.

(** C10, as the code has it.  When [n] callers begin on one handle whose
    cache is unset, before any load completes, [n] introspection
    statements are handed to the pool, one by each caller, and the cache
    is still unset.  Whatever turns follow, a caller whose own
    introspection succeeded receives, once its callback has run, the parse
    of the whole reply to its own statement: never a partial sequence. *)
Theorem concurrent_first_callers (n : nat) (w : world) :
  metadata w = None ->
  let s := run_loop (map Begin (seq 0 n)) (waiting_room n w) in
  length (introspections (calls (shared s)))
  = (length (introspections (calls w)) + n)%nat
  /\ metadata (shared s) = None
  /\ (forall i, (i < n)%nat ->
                exists reply, nth_error (callers s) i = Some (Waiting reply))
  /\ (forall evs i err rows,
         nth_error (callers s) i = Some (Waiting (err, rows)) ->
         truthy err = false ->
         In (Finish i) evs ->
         nth_error (callers (run_loop evs s)) i
         = Some (Fulfilled (map (column_of (self_options self)) rows))).
Proof.
  intros Hmd. cbv zeta. unfold waiting_room.
  destruct (begins_issue n [] w Hmd) as ((ws & Hc & Hl & Hw) & Hm & Hi).
  cbn [length app] in Hc, Hm, Hi. repeat split; try assumption.
  - intros i Hlt. rewrite Hc.
    destruct (nth_error ws i) as [c|] eqn:E.
    + rewrite Forall_forall in Hw. destruct (Hw c) as [reply ->].
      * eapply nth_error_In, E.
      * now exists reply.
    + apply nth_error_None in E. lia.
  - intros evs i err rows. apply finish_delivers.
Qed.

(** ** The statements built *)

(** C1, as the code has it.  On the table with key [id] and columns
    [version], [updated], [name] (in that order) and the default settings,
    [update({id:5, name:"X"})] builds
    [UPDATE <table> SET name=? WHERE id=?] with parameters ["X", 5]: a
    special column contributes its clause only when [save] carries its key.
    With [{id, version, updated, name}] the SET list is
    [version=version+1, updated=CURRENT_TIMESTAMP, name=?], whatever the
    supplied values; the clauses follow the order of the entries of
    [save]. *)
Theorem update_writes_supplied_fields (t e : string) (v u : value) :
  let handle := new_DbEntity t e None in
  update_sql moment_format handle customer_metadata
    [("id", VNum 5); ("name", VStr "X")]
  = Normal ("UPDATE " ++ t ++ " SET name=? WHERE id=?", [VStr "X"; VNum 5])
  /\ update_sql moment_format handle customer_metadata
       [("id", VNum 5); ("version", v); ("updated", u); ("name", VStr "X")]
     = Normal ("UPDATE " ++ t
               ++ " SET version=version+1, updated=CURRENT_TIMESTAMP, name=?"
               ++ " WHERE id=?", [VStr "X"; VNum 5])
  /\ update_sql moment_format handle customer_metadata
       [("name", VStr "X"); ("version", v); ("id", VNum 5)]
     = Normal ("UPDATE " ++ t ++ " SET name=?, version=version+1 WHERE id=?",
               [VStr "X"; VNum 5]).
Proof.
  cbv zeta. unfold update_sql. cbn.
  rewrite !append_assoc. repeat split.
Qed.

(** With a single key column the default clause is the documented one. *)
Lemma default_order_single_key (md : list column_meta) (sql : string)
  (c : column_meta) :
  pks md = [c] ->
  _appendOrderByAndLimit md sql None = sql ++ " ORDER BY " ++ asc_list [c].
Proof.
  intros H. rewrite appendOrderByAndLimit_no_opts, H. simpl.
  now rewrite !append_empty_r.
Qed.

(** C2, the code at the failing inputs.  With the two key columns
    [order_id] and [line] and no caller order the builder appends
    [ ORDER BY order_id ASCline ASC, ]: the columns run together and the
    separator lands after them.  With no key column it appends a bare
    [ ORDER BY ]. *)
Theorem default_order_by_is_malformed (sql : string) :
  _appendOrderByAndLimit order_line_metadata sql None
  = sql ++ " ORDER BY order_id ASCline ASC, "
  /\ _appendOrderByAndLimit order_line_metadata sql None
     <> sql ++ " ORDER BY " ++ asc_list (pks order_line_metadata)
  /\ _appendOrderByAndLimit audit_metadata sql None = sql ++ " ORDER BY ".
Proof.
  rewrite !appendOrderByAndLimit_no_opts. cbn. repeat split.
  intros H. apply append_cancel_l in H. discriminate H.
Qed.

(** C3, the code at the failing input.  Without an options object the
    trailing clause holds the default order and nothing else, so the
    statements of [all], [find] and [selectWhere] carry no LIMIT; with an
    options object that names no limit, [ LIMIT 1000] is appended. *)
Theorem select_without_options_has_no_limit (t e : string) :
  let handle := new_DbEntity t e None in
  let no_fields :=
    {| orderBy := None; limit := None; offset := None; booleanMode := None |}
  in
  all_sql handle customer_metadata None
  = "SELECT * FROM " ++ t ++ "  ORDER BY id ASC"
  /\ find_sql handle customer_metadata [("status", VStr "active")] None
     = ("SELECT * FROM " ++ t ++ "  WHERE status=? ORDER BY id ASC",
        [VStr "active"])
  /\ selectWhere_sql handle customer_metadata "name LIKE 'A%'" None
     = "SELECT * FROM " ++ t ++ "  WHERE name LIKE 'A%' ORDER BY id ASC"
  /\ all_sql handle customer_metadata (Some no_fields)
     = "SELECT * FROM " ++ t ++ "  ORDER BY id ASC LIMIT 1000".
Proof.
  cbv zeta. unfold all_sql, find_sql, selectWhere_sql. cbn.
  rewrite !append_assoc. repeat split.
Qed.

(** ** Coercion *)

Lemma empty_means_absent_iff (datatype : string) :
  is_temporal datatype || is_numeric datatype = true
  <-> empty_means_absent datatype.
Proof.
  unfold is_temporal, is_numeric, empty_means_absent.
  rewrite !orb_true_iff, !String.eqb_eq, !startsWith_spec. tauto.
Qed.

(** C6. On the empty string, a column whose type is [datetime] or
    [timestamp] or starts with [int], [num] or [dec] yields [null] when it
    is nullable and otherwise fails with the error
    [<column> is not permitted to be empty.]; for every other type the
    empty string is returned as it is. *)
Theorem empty_string_coercion (col : column_meta) :
  (empty_means_absent (sql_type col) -> nullable col = true ->
   _transformToSafeValue moment_format (VStr "") col = Normal VNull)
  /\ (empty_means_absent (sql_type col) -> nullable col = false ->
      _transformToSafeValue moment_format (VStr "") col
      = Throw (VError "Error"
                 (column col ++ " is not permitted to be empty.")))
  /\ (~ empty_means_absent (sql_type col) ->
      _transformToSafeValue moment_format (VStr "") col = Normal (VStr "")).
Proof.
  unfold _transformToSafeValue. repeat split.
  - intros H Hn. apply empty_means_absent_iff in H. now rewrite H, Hn.
  - intros H Hn. apply empty_means_absent_iff in H. now rewrite H, Hn.
  - intros H. rewrite <- empty_means_absent_iff in H.
    now destruct (is_temporal (sql_type col) || is_numeric (sql_type col)).
Qed.


(** ** Predicates and clause lists *)

Lemma append_not_empty (a b : string) : b <> "" -> (a ++ b =? "") = false.
Proof.
  intros H. apply String.eqb_neq. intros E.
  destruct a; simpl in E; [contradiction | discriminate].
Qed.

Lemma where_loop_eq (bool : string) (entries : object) :
  forall where_ parms,
    where_loop bool entries where_ parms
    = (match entries with
       | [] => where_
       | _ :: _ =>
           (if where_ =? "" then "" else where_ ++ bool)
           ++ join bool (map (fun e => equals_placeholder (fst e)) entries)
       end,
       (parms ++ map snd entries)%list).
Proof.
  induction entries as [|[k v] rest IH]; intros where_ parms.
  - simpl. now rewrite app_nil_r.
  - cbn [where_loop]. rewrite IH. cbn [map fst snd].
    rewrite <- app_assoc. cbn [app]. f_equal.
    assert (Hk : (((if negb (where_ =? "") then where_ ++ bool else where_)
                   ++ k ++ "=?") =? "") = false).
    { apply append_not_empty. intros E. destruct k; discriminate. }
    destruct rest as [|e rest].
    + cbn [join map]. unfold equals_placeholder.
      destruct (where_ =? "") eqn:E; cbn [negb].
      * apply String.eqb_eq in E. now subst.
      * now rewrite append_assoc.
    + rewrite Hk. cbn [join map]. unfold equals_placeholder.
      destruct (where_ =? "") eqn:E; cbn [negb].
      * apply String.eqb_eq in E. subst. simpl.
        now rewrite !append_assoc.
      * now rewrite !append_assoc.
Qed.


Lemma pk_where_loop_as_template (o : object) (keys : list column_meta) :
  forall where_ parms,
    pk_where_loop o keys where_ parms
    = where_loop " AND " (key_entries o keys) where_ parms.
Proof.
  induction keys as [|col rest IH]; intros where_ parms; simpl;
    [reflexivity | apply IH].
Qed.

Lemma key_predicate (o : object) (keys : list column_meta) :
  pk_where_loop o keys "" []
  = (join " AND " (map (fun col => equals_placeholder (column col)) keys),
     map (fun col => prop o (column col)) keys).
Proof.
  rewrite pk_where_loop_as_template, where_loop_eq. unfold key_entries.
  rewrite !map_map. cbn [app fst snd].
  destruct keys; reflexivity.
Qed.

(** X2. [deleteOne] builds [DELETE FROM <table> WHERE ] followed by one
    [<key column>=?] per primary-key column, in metadata order, joined by
    [ AND ]; the parameters are the values the object holds under those
    columns, [undefined] for a column the object lacks.  With no key
    column the predicate is empty and no parameter is bound. *)
Theorem deleteOne_uses_every_key_column (md : list column_meta)
  (toDelete : object) :
  deleteOne_sql self md toDelete
  = ("DELETE FROM " ++ table self ++ " WHERE "
     ++ join " AND "
          (map (fun col => equals_placeholder (column col)) (pks md)),
     map (fun col => prop toDelete (column col)) (pks md)).
Proof.
  unfold deleteOne_sql. rewrite key_predicate. now rewrite !append_assoc.
Qed.

(** ** Caller-supplied order *)

Lemma orderBy_loop_eq (tokens : list string) :
  forall i orderBy_,
    orderBy_loop i tokens orderBy_
    = orderBy_
      ++ match tokens with
         | [] => ""
         | _ :: _ =>
             (if (0 <? i)%nat then ", " else "")
             ++ join ", " (map order_term tokens)
         end.
Proof.
  induction tokens as [|tok rest IH]; intros i ob.
  - simpl. now rewrite append_empty_r.
  - cbn [orderBy_loop].
    assert (E : forall acc,
               (let '(colname, ord) :=
                  if startsWith tok "-" then (substr1 tok, "DESC")
                  else if startsWith tok "+" then (substr1 tok, "ASC")
                  else (tok, "ASC") in
                orderBy_loop (S i) rest (acc ++ colname ++ " " ++ ord))
               = orderBy_loop (S i) rest (acc ++ order_term tok)).
    { intros acc. unfold order_term.
      destruct (startsWith tok "-"); [reflexivity|].
      destruct (startsWith tok "+"); reflexivity. }
    rewrite E, IH.
    destruct rest as [|tok' rest]; destruct i;
      cbn [map join Nat.ltb Nat.leb];
      rewrite ?append_assoc, ?append_empty_r; reflexivity.
Qed.

(** X3. When the caller names at least one order token, the trailing
    clause is [ ORDER BY ] with one term per token, in the caller's order
    and separated by commas, then the LIMIT clause and the OFFSET clause if
    an offset is given.  A leading [-] makes the term descending, a leading
    [+] or no sign ascending.  The metadata plays no part. *)
Theorem caller_order_is_used (md : list column_meta) (sql : string)
  (o : query_opts) (token : string) (tokens : list string) :
  orderBy o = Some (token :: tokens) ->
  _appendOrderByAndLimit md sql (Some o)
  = sql ++ " ORDER BY " ++ join ", " (map order_term (token :: tokens))
    ++ limit_clause o.
Proof.
  intros H. unfold _appendOrderByAndLimit. rewrite H.
  rewrite orderBy_loop_eq. cbn [Nat.ltb Nat.leb].
  set (terms := join ", " (map order_term (token :: tokens))).
  assert (E : ((("" ++ " ORDER BY ") ++ "" ++ terms) =? "") = false)
    by reflexivity.
  rewrite E. unfold limit_clause.
  destruct (limit o), (offset o); cbn [append];
    rewrite ?append_assoc, ?append_empty_r; reflexivity.
Qed.

(** X4. With an options object that names no order (or an empty one), on a
    table with exactly one primary-key column, the trailing clause is
    [ ORDER BY <key> ASC] followed by [ LIMIT <limit>], 1000 when the
    options name no limit, and by [ OFFSET <offset>] only when an offset is
    given. *)
Theorem single_key_default_order (md : list column_meta) (sql : string)
  (o : query_opts) (key : column_meta) :
  pks md = [key] ->
  orderBy o = None \/ orderBy o = Some [] ->
  _appendOrderByAndLimit md sql (Some o)
  = sql ++ " ORDER BY " ++ column key ++ " ASC" ++ limit_clause o.
Proof.
  intros Hk Ho. unfold _appendOrderByAndLimit.
  assert (E : match orderBy o with
              | Some ((_ :: _) as tokens) =>
                  orderBy_loop 0 tokens ("" ++ " ORDER BY ")
              | _ => ""
              end = "").
  { destruct Ho as [-> | ->]; reflexivity. }
  rewrite E. cbn [String.eqb]. rewrite pk_order_loop_eq, Hk.
  unfold limit_clause.
  destruct (limit o), (offset o); cbn;
    rewrite ?append_assoc, ?append_empty_r; reflexivity.
Qed.

(** ** The statements of the writes *)

Lemma update_loop_parms (not_pks : list column_meta) (save : object) :
  forall sets parms sets' parms',
    update_loop moment_format self not_pks save sets parms
    = Normal (sets', parms') ->
    exists extra,
      parms' = (parms ++ extra)%list
      /\ Forall (fun p => p <> VUndefined) extra
      /\ (length extra <= length save)%nat.
Proof.
  induction save as [|[k v] rest IH]; intros sets parms sets' parms' H;
    cbn [update_loop] in H.
  - injection H as _ <-. exists []. rewrite app_nil_r.
    repeat split; [constructor | simpl; lia].
  - assert (Hskip : forall s p,
               update_loop moment_format self not_pks rest s p
               = Normal (sets', parms') ->
               p = parms ->
               exists extra,
                 parms' = (parms ++ extra)%list
                 /\ Forall (fun p => p <> VUndefined) extra
                 /\ (length extra <= length ((k, v) :: rest))%nat).
    { intros s p Hs ->. destruct (IH _ _ _ _ Hs) as (extra & E1 & E2 & E3).
      exists extra. repeat split; [exact E1 | exact E2 | simpl; lia]. }
    destruct (List.find (fun c => column c =? k) not_pks) as [col|];
      [|now apply (Hskip _ _ H)].
    destruct (names_column (created_timestamp_column (self_options self)) col);
      [now apply (Hskip _ _ H)|].
    destruct (names_column (version_number_column (self_options self)) col);
      [now apply (Hskip _ _ H)|].
    destruct (names_column (updated_timestamp_column (self_options self)) col);
      [now apply (Hskip _ _ H)|].
    destruct (_transformToSafeValue moment_format v col) as [pv|e];
      [|discriminate].
    destruct (IH _ _ _ _ H) as (extra & E1 & E2 & E3).
    exists ((if isNil pv then VNull else pv) :: extra).
    rewrite E1, <- app_assoc. repeat split.
    + constructor; [|exact E2]. destruct pv; discriminate.
    + simpl. lia.
Qed.

(** X5. Whenever [update] builds a statement, it is
    [UPDATE <table> SET <sets> WHERE ] followed by one [<key column>=?] per
    primary-key column in metadata order, joined by [ AND ]; its parameters
    are those of the SET list followed by the values [save] holds under the
    key columns.  No SET parameter is [undefined]: an absent value is bound
    as [null].  A key value missing from [save] is bound as [undefined]. *)
Theorem update_statement_shape (md : list column_meta) (save : object)
  (sql : string) (parms : list value) :
  update_sql moment_format self md save = Normal (sql, parms) ->
  exists sets set_parms,
    sql = "UPDATE " ++ table self ++ " SET " ++ sets ++ " WHERE "
          ++ join " AND "
               (map (fun col => equals_placeholder (column col)) (pks md))
    /\ parms = (set_parms
                ++ map (fun col => prop save (column col)) (pks md))%list
    /\ Forall (fun p => p <> VUndefined) set_parms
    /\ (length set_parms <= length save)%nat.
Proof.
  unfold update_sql. intros H.
  destruct (update_loop moment_format self
              (filter (fun col => negb (pk col)) md) save "" [])
    as [[sets set_parms]|e] eqn:E; [|discriminate].
  rewrite pk_where_loop_as_template, where_loop_eq in H.
  injection H as <- <-.
  destruct (update_loop_parms _ _ _ _ _ _ E) as (extra & E1 & E2 & E3).
  simpl in E1. subst set_parms.
  exists sets, extra. unfold key_entries. rewrite !map_map. cbn [fst snd].
  repeat split; try assumption.
  rewrite !append_assoc. destruct (pks md); reflexivity.
Qed.


Lemma create_loop_eq (save : object) (columns : list column_meta) :
  forall cols vals parms cols' vals' parms',
    Forall (fun col => column col <> "") columns ->
    create_loop moment_format self save columns cols vals parms
    = Normal (cols', vals', parms') ->
    cols' = match columns with
            | [] => cols
            | _ :: _ => (if cols =? "" then "" else cols ++ ", ")
                        ++ join ", " (map column columns)
            end
    /\ vals' = match columns with
               | [] => vals
               | _ :: _ => (if vals =? "" then "" else vals ++ ", ")
                           ++ join ", " (map value_text columns)
               end
    /\ exists bound,
        parms' = (parms ++ bound)%list
        /\ Forall2
             (fun col p =>
                _transformToSafeValue moment_format (prop save (column col))
                  col = Normal p)
             (filter (fun col => negb (is_special col)) columns) bound.
Proof.
  induction columns as [|col rest IH];
    intros cols vals parms cols' vals' parms' Hne H.
  - injection H as <- <- <-. repeat split. exists [].
    rewrite app_nil_r. split; [reflexivity | constructor].
  - inversion Hne as [|? ? Hcol Hrest]; subst.
    cbn [create_loop] in H.
    set (cols1 := (if negb (cols =? "") then cols ++ ", " else cols)
                  ++ column col) in H.
    set (vals0 := if negb (vals =? "") then vals ++ ", " else vals) in H.
    assert (Hc1 : (cols1 =? "") = false)
      by (apply append_not_empty; exact Hcol).
    assert (Hcols : forall tl,
               match rest with
               | [] => cols1
               | _ :: _ => (if cols1 =? "" then "" else cols1 ++ ", ") ++ tl
               end
               = (if cols =? "" then "" else cols ++ ", ")
                 ++ match rest with
                    | [] => column col
                    | _ :: _ => column col ++ ", " ++ tl
                    end).
    { intros tl. rewrite Hc1. unfold cols1.
      destruct rest; destruct (cols =? "") eqn:E; cbn [negb];
        try (apply String.eqb_eq in E; subst cols);
        rewrite ?append_assoc; reflexivity. }
    assert (Hvals : forall text tl,
               text <> "" ->
               match rest with
               | [] => vals0 ++ text
               | _ :: _ =>
                   (if (vals0 ++ text) =? "" then ""
                    else (vals0 ++ text) ++ ", ") ++ tl
               end
               = (if vals =? "" then "" else vals ++ ", ")
                 ++ match rest with
                    | [] => text
                    | _ :: _ => text ++ ", " ++ tl
                    end).
    { intros text tl Ht. rewrite (append_not_empty vals0 text Ht).
      unfold vals0.
      destruct rest; destruct (vals =? "") eqn:E; cbn [negb];
        try (apply String.eqb_eq in E; subst vals);
        rewrite ?append_assoc; reflexivity. }
    unfold is_special, value_text. cbn [filter map join].
    destruct (names_column (created_timestamp_column (self_options self)) col).
    { destruct (IH _ _ _ _ _ _ Hrest H) as (E1 & E2 & bound & E3 & E4).
      cbn [orb negb]. rewrite E1, E2, Hcols, Hvals by discriminate.
      repeat split; try (destruct rest; reflexivity).
      exists bound. now split. }
    destruct (names_column (updated_timestamp_column (self_options self)) col).
    { destruct (IH _ _ _ _ _ _ Hrest H) as (E1 & E2 & bound & E3 & E4).
      cbn [orb negb]. rewrite E1, E2, Hcols, Hvals by discriminate.
      repeat split; try (destruct rest; reflexivity).
      exists bound. now split. }
    destruct (names_column (version_number_column (self_options self)) col).
    { destruct (IH _ _ _ _ _ _ Hrest H) as (E1 & E2 & bound & E3 & E4).
      cbn [orb negb]. rewrite E1, E2, Hcols, Hvals by discriminate.
      repeat split; try (destruct rest; reflexivity).
      exists bound. now split. }
    destruct (_transformToSafeValue moment_format (prop save (column col)) col)
      as [p|e] eqn:P; [|discriminate].
    destruct (IH _ _ _ _ _ _ Hrest H) as (E1 & E2 & bound & E3 & E4).
    cbn [orb negb]. rewrite E1, E2, Hcols, Hvals by discriminate.
    repeat split; try (destruct rest; reflexivity).
    exists (p :: bound). rewrite E3, <- app_assoc. split; [reflexivity|].
    constructor; assumption.
Qed.

(** X7. Whenever [create] builds a statement on a table whose columns have
    non-empty names, it is [INSERT INTO <table> (<columns>) VALUES
    (<values>);] where the columns are all columns but the auto-increment
    keys, in metadata order; the value of the created, updated and version
    columns is the literal [CURRENT_TIMESTAMP], [CURRENT_TIMESTAMP] and [0],
    and every other column has a [?] whose parameter, in the same order, is
    the coerced value [save] holds under the column's name. *)
Theorem create_statement_shape (md : list column_meta) (save : object)
  (sql : string) (parms : list value) :
  Forall (fun col => column col <> "") (written_columns md) ->
  create_sql moment_format self md save = Normal (sql, parms) ->
  sql = "INSERT INTO " ++ table self ++ " ("
        ++ join ", " (map column (written_columns md))
        ++ ") VALUES ("
        ++ join ", " (map value_text (written_columns md)) ++ ");"
  /\ Forall2
       (fun col p =>
          _transformToSafeValue moment_format (prop save (column col)) col
          = Normal p)
       (filter (fun col => negb (is_special col)) (written_columns md)) parms.
Proof.
  intros Hne H. unfold create_sql in H. fold (written_columns md) in H.
  destruct (create_loop moment_format self save (written_columns md) "" "" [])
    as [[[cols vals] ps]|e] eqn:E; [|discriminate].
  injection H as <- <-.
  destruct (create_loop_eq _ _ _ _ _ _ _ _ Hne E)
    as (E1 & E2 & bound & E3 & E4).
  simpl in E3. subst ps. split; [|exact E4].
  rewrite E1, E2. rewrite ?append_assoc.
  destruct (written_columns md); reflexivity.
Qed.

(** ** One unit of work *)

(** Brings the statement of the operation at hand into the goal. *)
Ltac use_statement Hst sql parms :=
  first [ rewrite Hst
        | injection Hst as ? ?; subst sql parms
        | let Hs := fresh "Hs" in injection Hst as Hs; rewrite Hs ].

(** X8. On a loaded handle, an operation whose statement cannot be built
    (a coercion of [create] or [update] fails, or [deleteMatching] reads
    its undeclared variable) rejects without handing anything to the pool:
    the call log and the pool are as before, the failure is logged at error
    severity, and the rejection is the thrown error ([err.code] of it in
    [deleteMatching]). *)
Theorem build_failure_sends_nothing (op : operation) (w : world)
  (md : list column_meta) (e : value) :
  metadata w = Some md ->
  statement_of md op = Throw e ->
  fst (perform op w)
  = Throw (if rejects_with_err op then e else member_code e)
  /\ calls (snd (perform op w)) = calls w
  /\ db (snd (perform op w)) = db w
  /\ metadata (snd (perform op w)) = Some md
  /\ exists where_, In (ERROR, where_ ++ JSON_stringify e)
                      (log (snd (perform op w))).
Proof.
  intros Hmd Hst.
  destruct op; cbn [perform statement_of rejects_with_err] in *;
    try discriminate; unfold fmap;
    [ unfold create | unfold update | unfold deleteMatching ];
    run_write_chain; rewrite Hmd; run_write_chain;
    try rewrite Hst; try (injection Hst as <-); run_write_chain;
    (split; [reflexivity|]); (split; [reflexivity|]);
    (split; [reflexivity|]); (split; [reflexivity|]);
    eexists; rewrite !in_app_iff; cbn [In]; right; left;
    rewrite <- ?append_assoc; reflexivity.
Qed.

(** X9. On a loaded handle, an operation whose statement is built hands
    the pool exactly that statement with its parameters, once, and nothing
    else; the cache is untouched, and the operation is rejected exactly
    when the pool reports a truthy error. *)
Theorem one_statement_per_operation (op : operation) (w : world)
  (md : list column_meta) (sql : string) (parms : list value) :
  metadata w = Some md ->
  statement_of md op = Normal (sql, parms) ->
  calls (snd (perform op w)) = (calls w ++ [(sql, parms)])%list
  /\ db (snd (perform op w)) = fst (pool_query (db w) sql parms)
  /\ metadata (snd (perform op w)) = Some md
  /\ rejected (fst (perform op w))
     = truthy (fst (snd (pool_query (db w) sql parms))).
Proof.
  intros Hmd Hst.
  destruct (pool_query (db w) sql parms) as [d [err results]] eqn:Hq.
  cbn [fst snd].
  destruct op; cbn [perform statement_of] in *;
    try discriminate; unfold fmap;
    [ unfold get | unfold all | unfold find | unfold one, find
    | unfold selectWhere | unfold create | unfold update | unfold deleteOne
    | unfold delete | unfold deleteWhere ];
    run_write_chain; rewrite Hmd; run_write_chain;
    use_statement Hst sql parms;
    unfold callDb; run_write_chain;
    match goal with
    | |- context [pool_query ?a ?b ?c] =>
        replace (pool_query a b c) with (d, (err, results))
          by (symmetry; exact Hq)
    end;
    destruct (truthy err); run_write_chain; repeat split.
Qed.

(** X10. When the introspection of an unset cache fails, the operation is
    rejected with the pool's error ([err.code] of it in [deleteMatching]
    and [deleteWhere]); only the SHOW COLUMNS statement has reached the
    pool and the cache is still unset, so the next operation introspects
    again. *)
Theorem failed_introspection_leaves_cache_unset (op : operation) (w : world) :
  metadata w = None ->
  truthy (fst (snd (catalog_reply (db w)))) = true ->
  let err := fst (snd (catalog_reply (db w))) in
  fst (perform op w)
  = Throw (if rejects_with_err op then err else member_code err)
  /\ calls (snd (perform op w))
     = (calls w ++ [(show_columns_sql (table self), [])])%list
  /\ db (snd (perform op w)) = fst (catalog_reply (db w))
  /\ metadata (snd (perform op w)) = None.
Proof.
  intros Hmd Herr. cbv zeta. unfold catalog_reply in *.
  destruct (pool_query_columns (db w) (show_columns_sql (table self)) [])
    as [d [err rows]] eqn:Hq.
  cbn [fst snd] in *.
  destruct op; cbn [perform rejects_with_err]; unfold fmap;
    [ unfold get | unfold all | unfold find | unfold one, find
    | unfold selectWhere | unfold create | unfold update | unfold deleteOne
    | unfold delete | unfold deleteMatching | unfold deleteWhere ];
    run_write_chain; rewrite Hmd; unfold callDb_columns; run_write_chain;
    rewrite Hq, Herr; run_write_chain; rewrite ?Hmd; repeat split.
Qed.

(** ** What the operations resolve with *)

Lemma prop_set_prop_same (o : object) (k : string) (v : value) :
  prop (set_prop o k v) k = v.
Proof.
  induction o as [|[k' v'] rest IH]; simpl.
  - now rewrite String.eqb_refl.
  - destruct (k' =? k) eqn:E; simpl.
    + now rewrite String.eqb_refl.
    + now rewrite E.
Qed.

Lemma prop_set_prop_other (o : object) (k k' : string) (v : value) :
  k' <> k -> prop (set_prop o k v) k' = prop o k'.
Proof.
  intros Hne. induction o as [|[k0 v0] rest IH]; simpl.
  - apply String.eqb_neq in Hne. rewrite String.eqb_sym. now rewrite Hne.
  - destruct (k0 =? k) eqn:E; simpl.
    + apply String.eqb_eq in E. subst k0.
      assert (F : (k =? k') = false)
        by (apply String.eqb_neq; congruence).
      now rewrite F.
    + destruct (k0 =? k'); [reflexivity | exact IH].
Qed.

(** X11. On a loaded handle, when the pool answers the statement of [get]
    without error, [get] resolves with the first row of the reply, and with
    the empty object when the reply has no row: it never resolves with
    [null] and never rejects for want of a row. *)
Theorem get_resolves_first_row_or_empty (w : world) (md : list column_meta)
  (id : value) (d : D) (err : value) (results : db_results) :
  metadata w = Some md ->
  pool_query (db w) ("SELECT * FROM " ++ table self ++ " WHERE id = ?") [id]
  = (d, (err, results)) ->
  truthy err = false ->
  fst (get id w)
  = Normal match results with
           | Rows (row :: _) => row
           | Rows [] | OkPacket _ _ => []
           end.
Proof.
  intros Hmd Hq Herr. unfold get. run_chain. rewrite Hmd. run_chain.
  unfold callDb. run_chain. rewrite Hq, Herr. run_chain.
  destruct results as [[|row rows]|]; reflexivity.
Qed.


Lemma create_outcome (w : world) (md : list column_meta) (save : object)
  (sql : string) (parms : list value) (d : D) (err : value)
  (results : db_results) :
  metadata w = Some md ->
  create_sql moment_format self md save = Normal (sql, parms) ->
  pool_query (db w) sql parms = (d, (err, results)) ->
  truthy err = false ->
  fst (create save w) = Normal (with_generated_key md results save).
Proof.
  intros Hmd Hst Hq Herr. unfold create. run_write_chain.
  rewrite Hmd. run_write_chain. rewrite Hst. run_write_chain.
  unfold callDb. run_write_chain. rewrite Hq, Herr. run_write_chain.
  reflexivity.
Qed.

(** X13. On a loaded handle, when the INSERT of [create] succeeds with at
    least one affected row and a positive generated id, and the table has
    an auto-increment key column, [create] resolves with [save] in which
    that column holds the generated id and every other property is as
    given.  When no row was affected, the id is not positive, or the table
    has no auto-increment key, it resolves with [save] unchanged. *)
Theorem create_returns_generated_key (w : world) (md : list column_meta)
  (save : object) (sql : string) (parms : list value) (d : D) (err : value)
  (affected insertId : Z) :
  metadata w = Some md ->
  create_sql moment_format self md save = Normal (sql, parms) ->
  pool_query (db w) sql parms = (d, (err, OkPacket affected insertId)) ->
  truthy err = false ->
  exists o,
    fst (create save w) = Normal o
    /\ (forall keyCol,
           (0 < affected)%Z -> (0 < insertId)%Z ->
           List.find (fun c => autoincrement c && pk c) md = Some keyCol ->
           prop o (column keyCol) = VNum insertId
           /\ forall k, k <> column keyCol -> prop o k = prop save k)
    /\ ((affected <= 0)%Z \/ (insertId <= 0)%Z
        \/ List.find (fun c => autoincrement c && pk c) md = None ->
        o = save).
Proof.
  intros Hmd Hst Hq Herr.
  exists (with_generated_key md (OkPacket affected insertId) save).
  split; [now apply (create_outcome w md save sql parms d err)|].
  unfold with_generated_key. split.
  - intros keyCol Ha Hi Hf.
    apply Z.ltb_lt in Ha, Hi. rewrite Ha, Hi, Hf. cbn [andb]. split.
    + apply prop_set_prop_same.
    + intros k Hk. now apply prop_set_prop_other.
  - intros [Ha | [Hi | Hf]].
    + apply Z.ltb_ge in Ha. now rewrite Ha.
    + apply Z.ltb_ge in Hi. rewrite Hi. now rewrite andb_false_r.
    + rewrite Hf. now destruct ((0 <? affected)%Z && (0 <? insertId)%Z).
Qed.

(** X14. On a loaded handle, when the pool answers the statement of a
    write without error, [update] and [deleteOne] resolve with the object
    they were given, its [_affectedRows] set to the reported count and its
    other properties as given; [delete] and [deleteWhere] resolve with a
    fresh object holding [_affectedRows] alone. *)
Theorem write_result_carries_affected_rows (op : operation) (w : world)
  (md : list column_meta) (sql : string) (parms : list value) (d : D)
  (err : value) (results : db_results) :
  metadata w = Some md ->
  statement_of md op = Normal (sql, parms) ->
  pool_query (db w) sql parms = (d, (err, results)) ->
  truthy err = false ->
  match op with
  | Update given | DeleteOne given =>
      exists o,
        fst (perform op w) = Normal (Entity o)
        /\ prop o "_affectedRows" = affectedRows_of results
        /\ forall k, k <> "_affectedRows" -> prop o k = prop given k
  | Delete _ | DeleteWhere _ _ =>
      fst (perform op w)
      = Normal (Entity [("_affectedRows", affectedRows_of results)])
  | _ => True
  end.
Proof.
  intros Hmd Hst Hq Herr.
  destruct op; try exact I; cbn [perform statement_of] in *; unfold fmap;
    [ unfold update | unfold deleteOne | unfold delete | unfold deleteWhere ];
    run_write_chain; rewrite Hmd; run_write_chain;
    use_statement Hst sql parms;
    unfold callDb; run_write_chain;
    match goal with
    | |- context [pool_query ?a ?b ?c] =>
        replace (pool_query a b c) with (d, (err, results))
          by (symmetry; exact Hq)
    end;
    rewrite Herr; run_write_chain; try reflexivity;
    (eexists; split; [reflexivity|]; split;
     [apply prop_set_prop_same | intros k Hk; now apply prop_set_prop_other]).
Qed.

(** X15. [deleteMatching] deletes nothing: whatever the criteria and the
    state of the handle it is rejected, and the only statement it can hand
    to the pool is the introspection of an unset cache.  On a loaded handle
    it hands the pool nothing and rejects with [undefined]. *)
Theorem deleteMatching_never_deletes (criteria : object) (w : world) :
  let r := deleteMatching criteria w in
  rejected (fst r) = true
  /\ (calls (snd r) = calls w
      \/ calls (snd r)
         = (calls w ++ [(show_columns_sql (table self), [])])%list)
  /\ (forall md, metadata w = Some md ->
                 fst r = Throw VUndefined /\ calls (snd r) = calls w).
Proof.
  cbv zeta. unfold deleteMatching. run_chain.
  destruct (metadata w) as [md|] eqn:Hmd; run_chain.
  - split; [reflexivity|]. split; [now left|].
    intros md' _. split; reflexivity.
  - unfold callDb_columns. run_chain.
    destruct (pool_query_columns (db w) (show_columns_sql (table self)) [])
      as [d [err rows]].
    destruct (truthy err); run_chain;
      (split; [reflexivity|]); (split; [now right|]); intros md; discriminate.
Qed.

(** ** The plural name *)

Lemma length_append_char (stem : string) (c : ascii) :
  String.length (stem ++ String c "") = S (String.length stem).
Proof. induction stem as [|a stem IH]; simpl; [reflexivity | now rewrite IH]. Qed.

Lemma substring_last_char (stem : string) (c : ascii) :
  String.substring (String.length stem) 1 (stem ++ String c "") = String c "".
Proof. induction stem as [|a stem IH]; simpl; [reflexivity | exact IH]. Qed.

Lemma substring_stem (stem rest : string) :
  String.substring 0 (String.length stem) (stem ++ rest) = stem.
Proof.
  induction stem as [|a stem IH]; simpl.
  - now destruct rest.
  - now rewrite IH.
Qed.

Lemma endsWith_char (stem : string) (c c' : ascii) :
  endsWith (stem ++ String c "") (String c' "") = Ascii.eqb c c'.
Proof.
  unfold endsWith. rewrite length_append_char. cbn [String.length].
  replace (S (String.length stem) - 1)%nat with (String.length stem) by lia.
  rewrite substring_last_char. cbn.
  now destruct (Ascii.eqb c c').
Qed.

Lemma lastIndexOf_from_final (stem : string) (c : ascii) :
  forall i found,
    lastIndexOf_from i (stem ++ String c "") c found
    = Z.of_nat (i + String.length stem).
Proof.
  induction stem as [|a stem IH]; intros i found; simpl.
  - rewrite Ascii.eqb_refl. f_equal. lia.
  - rewrite IH. f_equal. lia.
Qed.

Lemma substr0_lastIndexOf (stem : string) (c : ascii) :
  substr0 (stem ++ String c "") (lastIndexOf (stem ++ String c "") c) = stem.
Proof.
  unfold substr0, lastIndexOf. rewrite lastIndexOf_from_final.
  rewrite Nat2Z.id. apply substring_stem.
Qed.

(** A non-empty string is its stem and its last character. *)
Lemma stem_and_last (s : string) :
  s <> "" -> exists stem c, s = stem ++ String c "".
Proof.
  induction s as [|a s IH]; intros H; [contradiction|].
  destruct s as [|b s].
  - now exists "", a.
  - destruct IH as (stem & c & E); [discriminate|].
    exists (String a stem), c. simpl. now rewrite E.
Qed.

(** X16. Without a plural in the options, the constructor derives it from
    the entity name by its last letter: a name ending in [y] loses the [y]
    and gains [ies]; a name ending in [s] loses that [s] and gains [es];
    any other name gains [s].  A plural given in the options is taken as
    it is. *)
Theorem plural_follows_last_letter (entity : string) :
  (forall stem, entity = stem ++ "y" ->
                derive_plural entity None = stem ++ "ies")
  /\ (forall stem, entity = stem ++ "s" ->
                   derive_plural entity None = stem ++ "es")
  /\ ((forall stem, entity <> stem ++ "y") ->
      (forall stem, entity <> stem ++ "s") ->
      derive_plural entity None = entity ++ "s")
  /\ (forall given, derive_plural entity (Some given) = given).
Proof.
  unfold derive_plural. repeat split.
  - intros stem ->. rewrite endsWith_char. cbn [Ascii.eqb Bool.eqb andb].
    now rewrite substr0_lastIndexOf.
  - intros stem ->. rewrite !endsWith_char. cbn.
    now rewrite substr0_lastIndexOf.
  - intros Hy Hs.
    destruct (String.eqb_spec entity "") as [->|Hne]; [reflexivity|].
    destruct (stem_and_last entity Hne) as (stem & c & ->).
    rewrite !endsWith_char.
    destruct (Ascii.eqb_spec c "y") as [->|_]; [now contradiction (Hy stem)|].
    destruct (Ascii.eqb_spec c "s") as [->|_]; [now contradiction (Hs stem)|].
    reflexivity.
Qed.

(** ** Logging of failures *)

(** Splits a chain on everything it branches on: the cache, the replies of
    the pool and the outcome of building the statement. *)
Ltac crack :=
  repeat
    (run_write_chain; unfold callDb, callDb_columns;
     match goal with
     | |- context [match metadata ?w with _ => _ end] =>
         destruct (metadata w)
     | |- context [pool_query_columns ?a ?b ?c] =>
         destruct (pool_query_columns a b c) as [? [? ?]]
     | |- context [pool_query ?a ?b ?c] =>
         destruct (pool_query a b c) as [? [? ?]]
     | |- context [truthy ?e] => destruct (truthy e)
     | |- context [find_sql ?a ?b ?c ?d] =>
         destruct (find_sql a b c d) as [? ?]
     | |- context [deleteOne_sql ?a ?b ?c] =>
         destruct (deleteOne_sql a b c) as [? ?]
     | |- context [create_sql ?a ?b ?c ?d] =>
         destruct (create_sql a b c d) as [[? ?]|?]
     | |- context [update_sql ?a ?b ?c ?d] =>
         destruct (update_sql a b c d) as [[? ?]|?]
     end).

(** X17. Every operation writes to the log only by appending, and it
    appends an entry at error severity exactly when it is rejected: no
    failure goes unlogged and no success logs an error. *)
Theorem rejection_is_logged (op : operation) (w : world) :
  exists entries,
    log (snd (perform op w)) = (log w ++ entries)%list
    /\ (rejected (fst (perform op w)) = true <-> errors entries <> []).
Proof.
  destruct op; cbn [perform]; unfold fmap;
    [ unfold get | unfold all | unfold find | unfold one, find
    | unfold selectWhere | unfold create | unfold update | unfold deleteOne
    | unfold delete | unfold deleteMatching | unfold deleteWhere ];
    crack; run_write_chain;
    (eexists; split;
     [ rewrite <- ?app_assoc; reflexivity
     | cbn; split; intros H;
       first [ reflexivity | discriminate | now contradiction H ] ]).
Qed.

(** ** From the catalog to the statement *)

Lemma pks_of_catalog (o : options) (rows : list show_column) :
  pks (map (column_of o) rows)
  = map (column_of o) (filter (fun item => Key item =? "PRI") rows).
Proof.
  unfold pks. induction rows as [|item rows IH]; [reflexivity|].
  cbn [map filter pk column_of].
  destruct (Key item =? "PRI"); cbn [map]; now rewrite IH.
Qed.

(** X18. On a handle whose cache is unset, when the introspection
    succeeds, [deleteOne] hands the pool two statements: SHOW COLUMNS, and
    the DELETE whose predicate tests, joined by [ AND ], the reported
    columns whose [Key] is [PRI], in the order of the report, against the
    values the object holds under those names. *)
Theorem deleteOne_on_first_use (w : world) (toDelete : object) (d : D)
  (err : value) (rows : list show_column) :
  metadata w = None ->
  catalog_reply (db w) = (d, (err, rows)) ->
  truthy err = false ->
  let keys := filter (fun item => Key item =? "PRI") rows in
  let delete_sql :=
    "DELETE FROM " ++ table self ++ " WHERE "
    ++ join " AND " (map (fun item => equals_placeholder (Field item)) keys)
  in
  calls (snd (deleteOne toDelete w))
  = (calls w
     ++ [(show_columns_sql (table self), []);
         (delete_sql, map (fun item => prop toDelete (Field item)) keys)])%list.
Proof.
  intros Hmd Hq Herr keys delete_sql. subst delete_sql.
  unfold catalog_reply in Hq.
  unfold deleteOne. run_chain. rewrite Hmd. unfold callDb_columns.
  run_chain. rewrite Hq, Herr. run_chain.
  unfold deleteOne_sql. rewrite key_predicate, pks_of_catalog.
  fold keys. rewrite !map_map. cbn [column column_of].
  unfold callDb. run_chain.
  match goal with
  | |- context [pool_query ?a ?b ?c] =>
      destruct (pool_query a b c) as [d' [err' results]]
  end.
  destruct (truthy err'); run_chain;
    rewrite <- app_assoc, !append_assoc; reflexivity.
Qed.

End Operations.


(** ** The model on the sample tables *)

(** The claimed statement of C1 is not the one built: without [version]
    and [updated] among the entries of [save], the SET list is [name=?]
    alone. *)
Lemma update_omits_absent_special_columns :
  update_sql iso_text t_customer customer_metadata
    [("id", VNum 5); ("name", VStr "X")]
  <> Normal ("UPDATE t_customer SET version=version+1, "
             ++ "updated=CURRENT_TIMESTAMP, name=? WHERE id=?",
             [VStr "X"; VNum 5]).
Proof. vm_compute. discriminate. Qed.

(** On a fresh handle, [find({})] and [update({id:5})] both resolve, and
    their predicate-less and set-less statements are in the call log. *)
Lemma empty_template_reaches_the_pool :
  let found :=
    find plain_text plain_text nat counting_columns counting_query
      t_customer [] None (fresh nat 0) in
  let updated :=
    update iso_text plain_text plain_text nat counting_columns counting_query
      t_customer [("id", VNum 5)] (fresh nat 0) in
  fst found = Normal (Rows [])
  /\ calls nat (snd found)
     = [("SHOW COLUMNS FROM t_customer;", []);
        ("SELECT * FROM t_customer  WHERE  ORDER BY id ASC", [])]
  /\ fst updated = Normal [("id", VNum 5); ("_affectedRows", VUndefined)]
  /\ calls nat (snd updated)
     = [("SHOW COLUMNS FROM t_customer;", []);
        ("UPDATE t_customer SET  WHERE id=?", [VNum 5])].
Proof. vm_compute. repeat split. Qed.

Lemma empty_template_is_sent_witness :
  let w := {| db := 0%nat; calls := []; log := [];
              metadata := Some customer_metadata |} in
  metadata nat w = Some customer_metadata
  /\ forallb
       (adds_no_set t_customer
          (filter (fun col => negb (pk col)) customer_metadata))
       [("id", VNum 5)] = true
  /\ calls nat
       (snd (find plain_text plain_text nat counting_columns counting_query
               t_customer [] None w))
     = [("SELECT * FROM t_customer  WHERE  ORDER BY id ASC", [])]
  /\ calls nat
       (snd (update iso_text plain_text plain_text nat counting_columns
               counting_query t_customer [("id", VNum 5)] w))
     = [("UPDATE t_customer SET  WHERE id=?", [VNum 5])].
Proof.
  intros w.
  pose proof (empty_template_is_sent iso_text plain_text plain_text nat
                counting_columns counting_query t_customer w
                customer_metadata None [("id", VNum 5)] eq_refl eq_refl)
    as [[H1 _] [H2 _]].
  split; [reflexivity|]. split; [reflexivity|].
  split; [exact H1 | exact H2].
Defined.

(** C5, the code at the failing inputs.  When the statement of
    [deleteWhere] fails in the pool with the driver's error record, the
    operation rejects with the record's [code] string, not with the
    record; [delete], on the same pool, rejects with the record itself.
    [deleteMatching] never reaches the pool with a statement of its own
    and rejects with [undefined]. *)
Theorem deleteWhere_rejects_with_code_only :
  let cut :=
    deleteWhere plain_text plain_text nat counting_columns failing_query
      t_customer "id > 10" [] (fresh nat 0) in
  let whole :=
    delete plain_text plain_text nat counting_columns failing_query
      t_customer (VNum 7) (fresh nat 0) in
  let matching :=
    deleteMatching plain_text plain_text nat counting_columns
      t_customer [("name", VStr "X")] (fresh nat 0) in
  fst cut = Throw (VStr "ER_PARSE_ERROR")
  /\ fst cut <> Throw driver_error
  /\ fst whole = Throw driver_error
  /\ fst matching = Throw VUndefined
  /\ calls nat (snd matching) = [("SHOW COLUMNS FROM t_customer;", [])].
Proof. vm_compute. repeat split. discriminate. Qed.

Lemma empty_string_coercion_witness :
  let age nullable_ :=
    {| column := "age"; sql_type := "int(11)"; pk := false;
       nullable := nullable_; default := VNull; autoincrement := false;
       is_updated_timestamp := false; is_created_timestamp := false;
       is_updated_version := false |} in
  empty_means_absent "int(11)"
  /\ _transformToSafeValue iso_text (VStr "") (age true) = Normal VNull
  /\ _transformToSafeValue iso_text (VStr "") (age false)
     = Throw (VError "Error" "age is not permitted to be empty.").
Proof.
  intros age.
  assert (H : empty_means_absent "int(11)").
  { right. right. left. exists "(11)". reflexivity. }
  split; [exact H|]. split.
  - exact (proj1 (empty_string_coercion iso_text (age true)) H eq_refl).
  - exact (proj1 (proj2 (empty_string_coercion iso_text (age false)))
             H eq_refl).
Defined.


Lemma introspection_happens_once_witness :
  truthy (fst (snd (catalog_reply nat counting_columns t_customer 0%nat)))
  = false
  /\ length
       (introspections
          (calls nat
             (snd (perform_all iso_text plain_text plain_text nat
                     counting_columns counting_query t_customer
                     [Find [] None; Update [("id", VNum 5); ("name", VStr "X")];
                      Get (VNum 5)]
                     (fresh nat 0)))))
     = 1%nat.
Proof.
  split; [reflexivity|].
  exact (proj2 (proj2 (proj2 (proj2
           (introspection_happens_once iso_text plain_text plain_text nat
              counting_columns counting_query t_customer
              (Find [] None)
              [Update [("id", VNum 5); ("name", VStr "X")]; Get (VNum 5)]
              0%nat eq_refl))))).
Defined.


(** Two callers that begin before either load completes cause two
    introspections, not one. *)
Lemma two_callers_two_introspections :
  let s :=
    run_loop plain_text plain_text nat counting_columns t_customer
      [Begin 0; Begin 1; Finish 0; Finish 1]
      (waiting_room nat 2 (fresh nat 0)) in
  introspections (calls nat (shared nat s))
  = [("SHOW COLUMNS FROM t_customer;", []);
     ("SHOW COLUMNS FROM t_customer;", [])]
  /\ length (introspections (calls nat (shared nat s))) <> 1%nat.
Proof. vm_compute. split; [reflexivity | discriminate]. Qed.

Lemma concurrent_first_callers_witness :
  metadata nat (fresh nat 0%nat) = None
  /\ length
       (introspections
          (calls nat
             (shared nat
                (run_loop plain_text plain_text nat counting_columns
                   t_customer (map Begin (seq 0 3))
                   (waiting_room nat 3 (fresh nat 0%nat))))))
     = 3%nat.
Proof.
  split; [reflexivity|].
  exact (proj1 (concurrent_first_callers plain_text plain_text nat
                  counting_columns t_customer 3 (fresh nat 0%nat) eq_refl)).
Defined.


(** ** The further properties on the sample tables *)

Lemma caller_order_is_used_witness :
  let o := {| orderBy := Some ["-created"; "+name"; "city"];
              limit := Some 10%Z; offset := None; booleanMode := None |} in
  orderBy o = Some ["-created"; "+name"; "city"]
  /\ _appendOrderByAndLimit customer_metadata
       "SELECT * FROM t_customer  WHERE status=?" (Some o)
     = "SELECT * FROM t_customer  WHERE status=?"
       ++ " ORDER BY created DESC, name ASC, city ASC LIMIT 10".
Proof.
  intros o. split; [reflexivity|].
  exact (caller_order_is_used customer_metadata
           "SELECT * FROM t_customer  WHERE status=?" o "-created"
           ["+name"; "city"] eq_refl).
Defined.

Lemma single_key_default_order_witness :
  let o := {| orderBy := Some []; limit := None; offset := Some 20%Z;
              booleanMode := None |} in
  let id := column_of default_options
              (catalog_row "id" "int(11)" "PRI" "auto_increment") in
  pks customer_metadata = [id]
  /\ (orderBy o = None \/ orderBy o = Some [])
  /\ _appendOrderByAndLimit customer_metadata "SELECT * FROM t_customer "
       (Some o)
     = "SELECT * FROM t_customer  ORDER BY id ASC LIMIT 1000 OFFSET 20".
Proof.
  intros o id. split; [reflexivity|]. split; [now right|].
  exact (single_key_default_order customer_metadata
           "SELECT * FROM t_customer " o id eq_refl (or_intror eq_refl)).
Defined.

Lemma update_statement_shape_witness :
  update_sql iso_text t_customer order_line_metadata
    [("qty", VUndefined); ("line", VNum 2)]
  = Normal ("UPDATE t_customer SET qty=? WHERE order_id=? AND line=?",
            [VNull; VUndefined; VNum 2])
  /\ exists sets set_parms,
      "UPDATE t_customer SET qty=? WHERE order_id=? AND line=?"
      = "UPDATE " ++ table t_customer ++ " SET " ++ sets ++ " WHERE "
        ++ join " AND "
             (map (fun col => equals_placeholder (column col))
                (pks order_line_metadata))
      /\ [VNull; VUndefined; VNum 2]
         = (set_parms
            ++ map (fun col =>
                      prop [("qty", VUndefined); ("line", VNum 2)] (column col))
                 (pks order_line_metadata))%list
      /\ Forall (fun p => p <> VUndefined) set_parms
      /\ (length set_parms <= 2)%nat.
Proof.
  split; [reflexivity|].
  exact (update_statement_shape iso_text t_customer order_line_metadata
           [("qty", VUndefined); ("line", VNum 2)] _ _ eq_refl).
Defined.

Lemma create_statement_shape_witness :
  Forall (fun col => column col <> "") (written_columns customer_metadata)
  /\ create_sql iso_text t_customer customer_metadata [("name", VStr "X")]
     = Normal ("INSERT INTO t_customer (version, updated, name) "
               ++ "VALUES (0, CURRENT_TIMESTAMP, ?);", [VStr "X"])
  /\ "INSERT INTO t_customer (version, updated, name) "
     ++ "VALUES (0, CURRENT_TIMESTAMP, ?);"
     = "INSERT INTO " ++ table t_customer ++ " ("
       ++ join ", " (map column (written_columns customer_metadata))
       ++ ") VALUES ("
       ++ join ", "
            (map (value_text t_customer) (written_columns customer_metadata))
       ++ ");".
Proof.
  assert (H : Forall (fun col => column col <> "")
                (written_columns customer_metadata))
    by (repeat constructor; discriminate).
  split; [exact H|]. split; [reflexivity|].
  exact (proj1 (create_statement_shape iso_text t_customer customer_metadata
                  [("name", VStr "X")] _ _ H eq_refl)).
Defined.

Lemma build_failure_sends_nothing_witness :
  let w := {| db := 0%nat; calls := []; log := [];
              metadata := Some order_line_metadata |} in
  let op := Update [("order_id", VNum 1); ("line", VNum 2); ("qty", VStr "")] in
  metadata nat w = Some order_line_metadata
  /\ statement_of iso_text t_customer order_line_metadata op
     = Throw (VError "Error" "qty is not permitted to be empty.")
  /\ fst (perform iso_text plain_text plain_text nat counting_columns
            counting_query t_customer op w)
     = Throw (VError "Error" "qty is not permitted to be empty.")
  /\ calls nat
       (snd (perform iso_text plain_text plain_text nat counting_columns
               counting_query t_customer op w))
     = [].
Proof.
  intros w op. split; [reflexivity|]. split; [reflexivity|].
  pose proof (build_failure_sends_nothing iso_text plain_text plain_text nat
                counting_columns counting_query t_customer op w
                order_line_metadata _ eq_refl eq_refl) as (H1 & H2 & _).
  split; [exact H1 | exact H2].
Defined.

Lemma one_statement_per_operation_witness :
  let w := {| db := 0%nat; calls := []; log := [];
              metadata := Some customer_metadata |} in
  metadata nat w = Some customer_metadata
  /\ statement_of iso_text t_customer customer_metadata (Get (VNum 5))
     = Normal ("SELECT * FROM t_customer WHERE id = ?", [VNum 5])
  /\ calls nat
       (snd (perform iso_text plain_text plain_text nat counting_columns
               counting_query t_customer (Get (VNum 5)) w))
     = [("SELECT * FROM t_customer WHERE id = ?", [VNum 5])].
Proof.
  intros w. split; [reflexivity|]. split; [reflexivity|].
  exact (proj1 (one_statement_per_operation iso_text plain_text plain_text
                  nat counting_columns counting_query t_customer
                  (Get (VNum 5)) w customer_metadata _ _ eq_refl eq_refl)).
Defined.

Lemma failed_introspection_leaves_cache_unset_witness :
  metadata nat (fresh nat 0%nat) = None
  /\ truthy (fst (snd (catalog_reply nat failing_columns t_customer 0%nat)))
     = true
  /\ fst (perform iso_text plain_text plain_text nat failing_columns
            counting_query t_customer (All None) (fresh nat 0%nat))
     = Throw driver_error
  /\ metadata nat
       (snd (perform iso_text plain_text plain_text nat failing_columns
               counting_query t_customer (All None) (fresh nat 0%nat)))
     = None.
Proof.
  split; [reflexivity|]. split; [reflexivity|].
  pose proof (failed_introspection_leaves_cache_unset iso_text plain_text
                plain_text nat failing_columns counting_query t_customer
                (All None) (fresh nat 0%nat) eq_refl eq_refl)
    as (H1 & _ & _ & H4).
  split; [exact H1 | exact H4].
Defined.

Lemma get_resolves_first_row_or_empty_witness :
  let w := {| db := 0%nat; calls := []; log := [];
              metadata := Some customer_metadata |} in
  metadata nat w = Some customer_metadata
  /\ counting_query 0%nat "SELECT * FROM t_customer WHERE id = ?" [VNum 5]
     = (1%nat, (VNull, Rows []))
  /\ truthy VNull = false
  /\ fst (get plain_text plain_text nat counting_columns counting_query
            t_customer (VNum 5) w)
     = Normal [].
Proof.
  intros w. split; [reflexivity|]. split; [reflexivity|].
  split; [reflexivity|].
  exact (get_resolves_first_row_or_empty plain_text plain_text nat
           counting_columns counting_query t_customer w customer_metadata
           (VNum 5) 1%nat VNull (Rows []) eq_refl eq_refl eq_refl).
Defined.

Lemma create_returns_generated_key_witness :
  let w := {| db := 0%nat; calls := []; log := [];
              metadata := Some customer_metadata |} in
  metadata nat w = Some customer_metadata
  /\ create_sql iso_text t_customer customer_metadata [("name", VStr "X")]
     = Normal ("INSERT INTO t_customer (version, updated, name) "
               ++ "VALUES (0, CURRENT_TIMESTAMP, ?);", [VStr "X"])
  /\ exists o,
      fst (create iso_text plain_text plain_text nat counting_columns
             inserting_query t_customer [("name", VStr "X")] w)
      = Normal o
      /\ prop o "id" = VNum 42
      /\ prop o "name" = VStr "X".
Proof.
  intros w. split; [reflexivity|]. split; [reflexivity|].
  destruct (create_returns_generated_key iso_text plain_text plain_text nat
              counting_columns inserting_query t_customer w customer_metadata
              [("name", VStr "X")] _ _ 1%nat VNull 1%Z 42%Z
              eq_refl eq_refl eq_refl eq_refl) as (o & Ho & Hkey & _).
  exists o. split; [exact Ho|].
  destruct (Hkey (column_of default_options
                    (catalog_row "id" "int(11)" "PRI" "auto_increment"))
              eq_refl eq_refl eq_refl) as [Hid Hothers].
  split; [exact Hid|].
  exact (Hothers "name" ltac:(discriminate)).
Defined.

Lemma write_result_carries_affected_rows_witness :
  let w := {| db := 0%nat; calls := []; log := [];
              metadata := Some customer_metadata |} in
  let op := Update [("id", VNum 5); ("name", VStr "X")] in
  metadata nat w = Some customer_metadata
  /\ statement_of iso_text t_customer customer_metadata op
     = Normal ("UPDATE t_customer SET name=? WHERE id=?", [VStr "X"; VNum 5])
  /\ exists o,
      fst (perform iso_text plain_text plain_text nat counting_columns
             inserting_query t_customer op w)
      = Normal (Entity o)
      /\ prop o "_affectedRows" = VNum 1.
Proof.
  intros w op. split; [reflexivity|]. split; [reflexivity|].
  destruct (write_result_carries_affected_rows iso_text plain_text plain_text
              nat counting_columns inserting_query t_customer op w
              customer_metadata _ _ 1%nat VNull (OkPacket 1 42)
              eq_refl eq_refl eq_refl eq_refl) as (o & Ho & Hrows & _).
  exists o. split; [exact Ho | exact Hrows].
Defined.

Lemma deleteMatching_never_deletes_witness :
  let w := {| db := 0%nat; calls := []; log := [];
              metadata := Some customer_metadata |} in
  metadata nat w = Some customer_metadata
  /\ fst (deleteMatching plain_text plain_text nat counting_columns
            t_customer [("name", VStr "X")] w)
     = Throw VUndefined
  /\ calls nat
       (snd (deleteMatching plain_text plain_text nat counting_columns
               t_customer [("name", VStr "X")] w))
     = [].
Proof.
  intros w. split; [reflexivity|].
  exact (proj2 (proj2 (deleteMatching_never_deletes plain_text plain_text nat
                         counting_columns t_customer [("name", VStr "X")] w))
           customer_metadata eq_refl).
Defined.

Lemma plural_follows_last_letter_witness :
  "category" = "categor" ++ "y"
  /\ derive_plural "category" None = "categories"
  /\ "address" = "addres" ++ "s"
  /\ derive_plural "address" None = "addreses".
Proof.
  split; [reflexivity|]. split.
  - exact (proj1 (plural_follows_last_letter "category") "categor" eq_refl).
  - split; [reflexivity|].
    exact (proj1 (proj2 (plural_follows_last_letter "address")) "addres"
             eq_refl).
Defined.

Lemma rejection_is_logged_witness :
  exists entries,
    log nat
      (snd (perform iso_text plain_text plain_text nat counting_columns
              failing_query t_customer (Delete (VNum 7)) (fresh nat 0%nat)))
    = entries
    /\ errors entries <> [].
Proof.
  destruct (rejection_is_logged iso_text plain_text plain_text nat
              counting_columns failing_query t_customer (Delete (VNum 7))
              (fresh nat 0%nat)) as (entries & Hlog & Hiff).
  exists entries. split; [exact Hlog|].
  apply Hiff. reflexivity.
Defined.

Lemma deleteOne_on_first_use_witness :
  metadata nat (fresh nat 0%nat) = None
  /\ catalog_reply nat counting_columns t_customer 0%nat
     = (1%nat, (VNull, customer_catalog))
  /\ truthy VNull = false
  /\ calls nat
       (snd (deleteOne plain_text plain_text nat counting_columns
               counting_query t_customer [("id", VNum 5)] (fresh nat 0%nat)))
     = [("SHOW COLUMNS FROM t_customer;", []);
        ("DELETE FROM t_customer WHERE id=?", [VNum 5])].
Proof.
  split; [reflexivity|]. split; [reflexivity|]. split; [reflexivity|].
  exact (deleteOne_on_first_use plain_text plain_text nat counting_columns
           counting_query t_customer (fresh nat 0%nat) [("id", VNum 5)]
           1%nat VNull customer_catalog eq_refl eq_refl eq_refl).
Defined.
